(** * CUDA-VPTree: the vantage-point tree builder and the stack-based search

    A shallow embedding of [src/vpTree.cu]:
    - [euclidean_distance] / [gpu_euclidean_distance] (the default metric),
    - [CUDA_VPTree::buildFromPoints] and [createVPTree] (host side builder),
    - [KNNSearch], [KNNSearchBatch] and [CUDA_VPTree::knnSearch] (search).

    Conventions.
    - [int] values are integers of [Z]; [-1] is the source's "no child" /
      "no node" sentinel.  The largest value the builder computes is
      [upper + lower], which stays below 2^31 as long as there are at most
      2^30 points; beyond that the source overflows [int] and is outside
      this model.
    - [double] values that are only compared, added and subtracted (the
      search and the builder) are exact rationals of [Q]; the default metric
      needs a square root and is stated over the reals [R].  Rounding is not
      modelled.
    - [std::vector] and device arrays are lists; an access outside the
      allocation is undefined in the source and is the error [OutOfRange]
      here.  Loops that are not structurally bounded take a fuel argument
      and yield [OutOfFuel] when it runs out. *)

From Stdlib Require Import ZArith QArith Qabs Psatz.
From stdpp Require Import base tactics option list sorting.

Open Scope Z_scope.

(** ** Results of fallible code *)

Inductive error : Type :=
| OutOfFuel
| OutOfRange.

Inductive res (A : Type) : Type :=
| Ok (a : A)
| Err (e : error).
Arguments Ok {A} a.
Arguments Err {A} e.

#[global] Instance res_ret : MRet res := fun A a => Ok a.

#[global] Instance res_bind : MBind res := fun A B k m =>
  match m with
  | Ok a => k a
  | Err e => Err e
  end.

(** [v[i]] for an [int] index [i]. *)
Definition at_index {A : Type} (v : list A) (i : Z) : res A :=
  if decide (0 <= i) then
    match v !! Z.to_nat i with
    | Some x => Ok x
    | None => Err OutOfRange
    end
  else Err OutOfRange.

(** [v[i] = x] for an [int] index [i]. *)
Definition set_index {A : Type} (v : list A) (i : Z) (x : A) : res (list A) :=
  if decide (0 <= i < Z.of_nat (length v)) then Ok (<[Z.to_nat i := x]> v)
  else Err OutOfRange.

(** ** The default metric (lines 18-32) *)

Module Metric.

(** [double]: the binary64 numbers of IEEE 754.  Every finite one is an
    integer multiple of 2^-1074, the least positive one: [Finite k] is the
    number [k * 2^-1074] (so 1.0 is [Finite (2^1074)]); it is a double when
    [k] has at most 53 significant binary digits and [|k| < 2^2098], that is
    below 2^1024.  The two zeros are not told apart ([Finite 0]): they
    compare equal, and the functions below do nothing that separates them.
    [NaN] stands for every NaN. *)
Inductive double : Type :=
| Finite (k : Z)
| Infinity (negative : bool)
| NaN.

(** The number of binary digits of a natural number. *)
Definition bits (a : Z) : Z := if a =? 0 then 0 else Z.log2 a + 1.

(** [a / 2^u] rounded to the nearest integer, a tie to the even one. *)
Definition nearest_even (a u : Z) : Z :=
  let q := a / 2 ^ u in
  let r := a mod 2 ^ u in
  if (2 ^ u <? 2 * r) || ((2 ^ u =? 2 * r) && Z.odd q) then q + 1 else q.

(** Rounding to nearest, ties to even (the default mode, which the code
    does not change): the double nearest to [a * 2^-(1074+s)], for
    [0 <= a] and [0 <= s].  The result keeps 53 digits, or fewer where the
    spacing 2^-1074 of the subnormal numbers is coarser ([u = s]); from
    2^1024 on it is infinite. *)
Definition round_nat (a s : Z) : double :=
  let u := Z.max (bits a - 53) s in
  let k := nearest_even a u * 2 ^ (u - s) in
  if 2 ^ 2098 <=? k then Infinity false else Finite k.

Definition dneg (x : double) : double :=
  match x with
  | Finite k => Finite (- k)
  | Infinity s => Infinity (negb s)
  | NaN => NaN
  end.

(** [fabs]. *)
Definition dabs (x : double) : double :=
  match x with
  | Finite k => Finite (Z.abs k)
  | Infinity _ => Infinity false
  | NaN => NaN
  end.

(** The same for a number of either sign. *)
Definition round (a s : Z) : double :=
  if a <? 0 then dneg (round_nat (- a) s) else round_nat a s.

(** [x - y] on doubles: the exact difference, rounded. *)
Definition dsub (x y : double) : double :=
  match x, y with
  | Finite a, Finite b => round (a - b) 0
  | Finite _, Infinity s => Infinity (negb s)
  | Infinity s, Finite _ => Infinity s
  | Infinity s, Infinity s' => if Bool.eqb s s' then NaN else Infinity s
  | _, _ => NaN
  end.

(** [x * y] on doubles: the exact product, a multiple of 2^-2148, rounded. *)
Definition dmul (x y : double) : double :=
  match x, y with
  | Finite a, Finite b => round (a * b) 1074
  | Finite a, Infinity s => if a =? 0 then NaN else Infinity (xorb (a <? 0) s)
  | Infinity s, Finite b => if b =? 0 then NaN else Infinity (xorb s (b <? 0))
  | Infinity s, Infinity s' => Infinity (xorb s s')
  | _, _ => NaN
  end.

(** [sqrt(x)], correctly rounded: with [m = k * 2^1194] the root of
    [k * 2^-1074] is [sqrt m * 2^-1134]; the integer root [s] and one more
    digit that tells whether it is exact decide the rounding, since a
    double root has no more than 53 of the at least 597 digits of [s]. *)
Definition dsqrt (x : double) : double :=
  match x with
  | Finite k =>
      if k <? 0 then NaN
      else
        let m := k * 2 ^ 1194 in
        let s := Z.sqrt m in
        round_nat (2 * s + (if s * s =? m then 0 else 1)) 61
  | Infinity false => Infinity false
  | _ => NaN
  end.

(** The double of value [m * 2^e], for [-1074 <= e]; used to write
    constants: [dyadic 3 0] is 3.0 and [dyadic 1 (-600)] is 2^-600. *)
Definition dyadic (m e : Z) : double := round (m * 2 ^ (e + 1074)) 0.

(** [struct Point { double coords[DIM]; }]: the header that declares it is
    not part of the sources at hand; [DIM] is a parameter of the
    functions below. *)
Record Point : Type := mkPoint { coords : list double }.

Definition coord (p : Point) (i : nat) : double := nth i (coords p) (Finite 0).

(** One pass of the [for] loop body, [total = (b[i]-a[i]) * (b[i]-a[i])]:
    the previous [total] is dropped. *)
Definition loop_body (a b : Point) (total : double) (i : nat) : double :=
  dmul (dsub (coord b i) (coord a i)) (dsub (coord b i) (coord a i)).

Definition euclidean_distance (DIM : nat) (a b : Point) : double :=
  let total := fold_left (loop_body a b) (seq 0 DIM) (Finite 0) in
  dsqrt total.

Definition gpu_euclidean_distance (DIM : nat) (a b : Point) : double :=
  let total := fold_left (loop_body a b) (seq 0 DIM) (Finite 0) in
  dsqrt total.

(** The points of the plane used below. *)
Definition point2 (x y : Z) : Point := mkPoint [dyadic x 0; dyadic y 0].
Definition tiny : Point := mkPoint [dyadic 0 0; dyadic 1 (-600)].
Definition huge : Point := mkPoint [dyadic 0 0; dyadic 1 600].

End Metric.

(** ** Nodes *)

(** [CUDA_VPNode] is declared in [include/vpTree.hpp], which is not among
    the sources; the four fields are the ones the code reads and writes. *)
Record CUDA_VPNode : Type := mkNode {
  threshold : Q;
  index : Z;
  left : Z;
  right : Z
}.

Definition set_node_index (n : CUDA_VPNode) (i : Z) : CUDA_VPNode :=
  {| threshold := threshold n; index := i; left := left n; right := right n |}.

(** A node without children, the test of line 65. *)
Definition is_leaf (n : CUDA_VPNode) : bool :=
  (left n =? -1) && (right n =? -1).

Definition no_children (n : CUDA_VPNode) : Prop :=
  left n = -1 /\ right n = -1.

Definition Qlt_bool (x y : Q) : bool := negb (Qle_bool y x).

(** [DBL_MAX] of <cfloat>: (2 - 2^-52) * 2^1023. *)
Definition DBL_MAX : Q := inject_Z (2 ^ 1024 - 2 ^ 971).

Definition CUDA_STACK_SIZE : Z := 32.

(** [INT_MAX] of <climits>, the largest [int]. *)
Definition INT_MAX : Z := 2 ^ 31 - 1.



(** ** The tree builder (lines 149-166 and 226-283) *)

Section Builder.

Context {Point : Type}.

(** [DistFunc]: a pointer to a function from two points to a [double]. *)
Definition DistFunc : Type := Point -> Point -> Q.

(** Modelled from the spec: [DistComparator] is declared in
    [include/vpTree.hpp], which is not among the sources.  The builder must
    place at the median a point whose distance to the vantage point is at
    least that of the points before it and at most that of the points after
    it, so the comparator orders points by their distance to [item]. *)
Definition DistComparator (item : Point) (distance : DistFunc) (a b : Point) : bool :=
  Qlt_bool (distance item a) (distance item b).

(** The value-initialised element of [std::vector<CUDA_VPNode>
    cpu_nodes(num_points)]; what it is depends on the missing header. *)
Variable node_init : CUDA_VPNode.

(** The selection done by [std::nth_element] on a sequence: [nth_element
    comp s k] is [s] rearranged by the library; which rearrangement is left
    to the implementation (see [nth_element_spec] below). *)
Variable nth_element : (Point -> Point -> bool) -> list Point -> nat -> list Point.

(** [std::nth_element(v.begin() + first, v.begin() + nth, v.begin() + last, comp)]. *)
Definition std_nth_element (v : list Point) (first nth last : Z)
    (comp : Point -> Point -> bool) : res (list Point) :=
  if decide (0 <= first /\ first <= nth /\ nth <= last /\ last <= Z.of_nat (length v)) then
    let f := Z.to_nat first in
    let l := Z.to_nat last in
    Ok (take f v ++ nth_element comp (take (l - f) (drop f v)) (Z.to_nat (nth - first))
          ++ drop l v)
  else Err OutOfRange.

(** [std::swap(v[i], v[j])]. *)
Definition swap (v : list Point) (i j : Z) : res (list Point) :=
  x ← at_index v i;
  y ← at_index v j;
  v1 ← set_index v i y;
  set_index v1 j x.

(** The object: device mirrors, size, validity flag and the two injected
    distance functions. *)
Record CUDA_VPTree : Type := mkTree {
  gpu_nodes : list CUDA_VPNode;
  gpu_points : list Point;
  num_points : Z;
  tree_valid : bool;
  distanceFunc : DistFunc;
  gpuDistanceFunc : DistFunc
}.

(** The constructor; the pair of distance functions in force (the default
    one or the one set by [injectDistanceFunc]) is its argument. *)
Definition new_tree (d gd : DistFunc) : CUDA_VPTree :=
  mkTree [] [] 0 false d gd.

Definition injectDistanceFunc (t : CUDA_VPTree) (d gd : DistFunc) : CUDA_VPTree :=
  mkTree (gpu_nodes t) (gpu_points t) (num_points t) (tree_valid t) d gd.

(** The locals of [buildFromPoints] and the vector it permutes. *)
Record build_state : Type := mkBuild {
  nodeCount : Z;
  cpu_nodes : list CUDA_VPNode;
  ranges_to_process : list (Z * Z);
  data : list Point
}.

(** One pass of the [while] loop (lines 236-270) after the range
    [(lower, upper)] was popped, [rest] being the remaining stack.  The
    value drawn from [rand()] is overwritten by [m = 0.5] before it is used;
    the cast [(int)(0.5 * (upper - lower - 1))] truncates, as [÷] does. *)
Definition build_body (dist : DistFunc) (st : build_state)
    (lower upper : Z) (rest : list (Z * Z)) : res build_state :=
  if decide (lower = upper) then
    Ok (mkBuild (nodeCount st) (cpu_nodes st) rest (data st))
  else
    let slot := nodeCount st in
    node ← at_index (cpu_nodes st) slot;
    let node1 := set_node_index node lower in
    if decide (upper - lower > 1) then
      let i := (upper - lower - 1) ÷ 2 + lower in
      data1 ← swap (data st) lower i;
      let median := (upper + lower) ÷ 2 in
      item ← at_index data1 lower;
      data2 ← std_nth_element data1 (lower + 1) median upper (DistComparator item dist);
      vp ← at_index data2 lower;
      pm ← at_index data2 median;
      let node2 :=
        {| threshold := dist vp pm;
           index := lower;
           left := if decide (median <> lower + 1) then lower + 1 else -1;
           right := if decide (upper <> median) then median else -1 |} in
      nodes ← set_index (cpu_nodes st) slot node2;
      Ok (mkBuild (slot + 1) nodes ((lower + 1, median) :: (median, upper) :: rest) data2)
    else
      nodes ← set_index (cpu_nodes st) slot node1;
      Ok (mkBuild (slot + 1) nodes rest (data st)).

Fixpoint build_loop (dist : DistFunc) (fuel : nat) (st : build_state) : res build_state :=
  match ranges_to_process st with
  | [] => Ok st
  | (lower, upper) :: rest =>
      match fuel with
      | O => Err OutOfFuel
      | S fuel' =>
          st' ← build_body dist st lower upper rest;
          build_loop dist fuel' st'
      end
  end.

(** [buildFromPoints]: the loop started on the range [(0, num_points)], then
    the copy of [cpu_nodes] to the device.  The loop runs at most
    [2 * num_points + 1] times (see [build_loop_range]). *)
Definition buildFromPoints (t : CUDA_VPTree) (v : list Point)
    : res (CUDA_VPTree * list Point * Z) :=
  let n := num_points t in
  st ← build_loop (distanceFunc t) (Z.to_nat (2 * n + 1))
         (mkBuild 0 (replicate (Z.to_nat n) node_init) [(0, n)] v);
  Ok (mkTree (cpu_nodes st) (gpu_points t) n (tree_valid t)
        (distanceFunc t) (gpuDistanceFunc t), data st, nodeCount st).

(** [createVPTree]: returns the object and the permuted [data]. *)
Definition createVPTree (t : CUDA_VPTree) (v : list Point)
    : res (CUDA_VPTree * list Point) :=
  let t1 := mkTree (gpu_nodes t) (gpu_points t) (Z.of_nat (length v)) (tree_valid t)
              (distanceFunc t) (gpuDistanceFunc t) in
  '(t2, v', _) ← buildFromPoints t1 v;
  Ok (mkTree (gpu_nodes t2) v' (num_points t2) true
        (distanceFunc t2) (gpuDistanceFunc t2), v').

End Builder.


(** ** The search (lines 43-130 and 168-212) *)

Section Search.

Context {Point : Type}.

(** The locals of [KNNSearch].  [nodeStack] is the memory at and after the
    address of the local array: the source stores to [nodeStack[++stackPtr]]
    without a bound check, and the model keeps running as if the store had
    landed in the adjacent memory.  [top_store] is not a variable of the
    source: it records the highest index of [nodeStack] stored to so far
    (index 0 by line 51), so that "no store outside the array" can be
    stated as [top_store < CUDA_STACK_SIZE]. *)
Record search_state : Type := mkSearch {
  best_idx : Z;
  best_dist : Q;
  nodeStack : Z -> Z;
  stackPtr : Z;
  currNodeIdx : Z;
  tau : Q;
  top_store : Z
}.

Definition store (a : Z -> Z) (i v : Z) : Z -> Z :=
  fun j => if decide (j = i) then v else a j.

(** Lines 47-54. *)
Definition search_init : search_state :=
  mkSearch (-1) DBL_MAX (store (fun _ => 0) 0 (-1)) 0 0 DBL_MAX 0.

(** Lines 59-63 when [dist < tau]. *)
Definition improve (st : search_state) (dist : Q) : search_state :=
  mkSearch (currNodeIdx st) dist (nodeStack st) (stackPtr st) (currNodeIdx st) dist
    (top_store st).

(** [nodeStack[++stackPtr] = v]. *)
Definition push (st : search_state) (v : Z) : search_state :=
  let sp := stackPtr st + 1 in
  mkSearch (best_idx st) (best_dist st) (store (nodeStack st) sp v) sp (currNodeIdx st)
    (tau st) (Z.max (top_store st) sp).

(** Lines 101-103: [if (stackPtr >= 0) currNodeIdx = nodeStack[stackPtr--]]. *)
Definition pop (st : search_state) : search_state :=
  if decide (stackPtr st >= 0) then
    mkSearch (best_idx st) (best_dist st) (nodeStack st) (stackPtr st - 1)
      (nodeStack st (stackPtr st)) (tau st) (top_store st)
  else st.

(** Lines 66-67: [currNodeIdx = -1; continue]. *)
Definition leave (st : search_state) : search_state :=
  mkSearch (best_idx st) (best_dist st) (nodeStack st) (stackPtr st) (-1) (tau st)
    (top_store st).

(** Lines 80-81 and 95-96: the failure sentinel. *)
Definition fail (st : search_state) : search_state :=
  mkSearch (-1) (-1 # 1) (nodeStack st) (stackPtr st) (currNodeIdx st) (tau st)
    (top_store st).

(** Lines 70-76 and 85-91: the pushes of the two children. *)
Definition push_children (st : search_state) (n : CUDA_VPNode) (dist : Q) : search_state :=
  if Qlt_bool dist (threshold n) then
    let st1 := if Qle_bool (threshold n) (dist + tau st) then push st (right n) else st in
    if Qle_bool (dist - tau st1) (threshold n) then push st1 (left n) else st1
  else
    let st1 := if Qle_bool (dist - tau st) (threshold n) then push st (left n) else st in
    if Qle_bool (threshold n) (dist + tau st1) then push st1 (right n) else st1.

(** How one pass of the [while] loop ends: at the bottom of the body (or at
    [continue]), or at one of the two [break]s. *)
Inductive step : Type :=
| Continue (st : search_state)
| Break (st : search_state).

(** One pass of the [while] loop, lines 56-103. *)
Definition KNNSearch_body (nodes : list CUDA_VPNode) (pts : list Point)
    (query : Point) (distFunc : @DistFunc Point) (st : search_state) : res step :=
  if decide (currNodeIdx st <> -1) then
    p ← at_index pts (currNodeIdx st);
    let dist := distFunc query p in
    let st1 := if Qlt_bool dist (tau st) then improve st dist else st in
    n ← at_index nodes (currNodeIdx st);
    if is_leaf n then Ok (Continue (leave st1))
    else
      let st2 := push_children st1 n dist in
      if decide (stackPtr st2 > CUDA_STACK_SIZE) then Ok (Break (fail st2))
      else Ok (Continue (pop st2))
  else Ok (Continue (pop st)).

(** Line 55. *)
Definition loop_cond (st : search_state) : bool :=
  bool_decide (stackPtr st >= 0) || bool_decide (currNodeIdx st <> -1).

(** How the loop was left. *)
Inductive loop_exit : Type :=
| CondFalse
| CapacityBreak.

Fixpoint KNNSearch_loop (nodes : list CUDA_VPNode) (pts : list Point)
    (query : Point) (distFunc : @DistFunc Point) (fuel : nat) (st : search_state)
    : res (loop_exit * search_state) :=
  if loop_cond st then
    match fuel with
    | O => Err OutOfFuel
    | S fuel' =>
        s ← KNNSearch_body nodes pts query distFunc st;
        match s with
        | Continue st' => KNNSearch_loop nodes pts query distFunc fuel' st'
        | Break st' => Ok (CapacityBreak, st')
        end
    end
  else Ok (CondFalse, st).

(** [KNNSearch]: the pair [( *ret_index, *ret_dist )]. *)
Definition KNNSearch (fuel : nat) (nodes : list CUDA_VPNode) (pts : list Point)
    (query : Point) (distFunc : @DistFunc Point) : res (Z * Q) :=
  '(_, st) ← KNNSearch_loop nodes pts query distFunc fuel search_init;
  Ok (best_idx st, best_dist st).

(** The thread [idx] of the kernel [KNNSearchBatch], acting on the two
    result arrays. *)
Definition KNNSearchBatch (fuel : nat) (nodes : list CUDA_VPNode) (pts : list Point)
    (num_pts : Z) (queries : list Point) (num_queries : Z)
    (distFunc : @DistFunc Point) (idx : Z) (ret : list Z * list Q)
    : res (list Z * list Q) :=
  if decide (idx >= num_queries) then Ok ret
  else
    q ← at_index queries idx;
    '(i, d) ← KNNSearch fuel nodes pts q distFunc;
    ret_index ← set_index (fst ret) idx i;
    ret_dist ← set_index (snd ret) idx d;
    Ok (ret_index, ret_dist).

(** The values of [blockIdx.x * blockDim.x + threadIdx.x] over a launch
    [<<<numBlocks, blockSize>>>]. *)
Definition grid (numBlocks blockSize : Z) : list Z :=
  b ← seqZ 0 numBlocks; t ← seqZ 0 blockSize; [b * blockSize + t].

(** A kernel launch followed by the synchronisation: every thread of the
    grid has run.  The threads of [KNNSearchBatch] share only read-only data
    and each stores to its own two cells, so they are run one after the
    other here. *)
Fixpoint run_threads {S : Type} (kernel : Z -> S -> res S) (ids : list Z) (s : S) : res S :=
  match ids with
  | [] => Ok s
  | idx :: ids' => s' ← kernel idx s; run_threads kernel ids' s'
  end.

(** [std::vector::resize(n)] and a [cudaMemcpy] of [n] elements. *)
Definition resize {A : Type} (n : nat) (d : A) (v : list A) : list A :=
  take n v ++ replicate (n - length v) d.

Definition memcpy {A : Type} (dst src : list A) (n : nat) : list A :=
  take n src ++ drop n dst.

(** [CUDA_VPTree::knnSearch]: the final contents of [indices] and
    [distances].  The result buffers on the device are not initialised by
    the source; every cell is stored to by its thread (they start as 0
    here).  Allocations and copies are taken to succeed. *)
Definition knnSearch (fuel : nat) (t : @CUDA_VPTree Point) (queries : list Point) (k : Z)
    (indices : list Z) (distances : list Q) : res (list Z * list Q) :=
  if negb (tree_valid t) then Ok (indices, distances)
  else
    let blockSize := 512 in
    let n := length queries in
    let numBlocks := (Z.of_nat n + blockSize - 1) ÷ blockSize in
    let indices1 := resize n 0 indices in
    let distances1 := resize n (0 # 1)%Q distances in
    '(gpu_ret_indices, gpu_ret_dists) ←
      run_threads
        (KNNSearchBatch fuel (gpu_nodes t) (gpu_points t) (num_points t) queries
           (Z.of_nat n) (gpuDistanceFunc t))
        (grid numBlocks blockSize)
        (replicate n 0, replicate n (0 # 1)%Q);
    Ok (memcpy indices1 gpu_ret_indices n, memcpy distances1 gpu_ret_dists n).



(** The number of nodes on the longest path from node [i] down to a leaf. *)
Fixpoint depth (fuel : nat) (nodes : list CUDA_VPNode) (i : Z) : nat :=
  match fuel with
  | O => O
  | S fuel' =>
      match at_index nodes i with
      | Ok n => S (Nat.max (depth fuel' nodes (left n)) (depth fuel' nodes (right n)))
      | Err _ => O
      end
  end.

Definition tree_depth (nodes : list CUDA_VPNode) : nat :=
  depth (length nodes) nodes 0.

End Search.

(** ** A concrete instance: grid points of the plane with the Manhattan
    distance, and [std::nth_element] done by an insertion sort *)

Module Example.

Definition Point : Type := (Z * Z)%type.

Definition manhattan (a b : Point) : Q :=
  inject_Z (Z.abs (fst a - fst b) + Z.abs (snd a - snd b)).

Fixpoint insert_by (comp : Point -> Point -> bool) (x : Point) (s : list Point) : list Point :=
  match s with
  | [] => [x]
  | y :: s' => if comp x y then x :: y :: s' else y :: insert_by comp x s'
  end.

Definition sort_by (comp : Point -> Point -> bool) (s : list Point) : list Point :=
  foldr (insert_by comp) [] s.

Definition nth_element (comp : Point -> Point -> bool) (s : list Point) (k : nat) : list Point :=
  sort_by comp s.

Definition leaf_init : CUDA_VPNode := mkNode 0 0 (-1) (-1).

Definition tree0 : CUDA_VPTree := new_tree manhattan manhattan.

Definition corners : list Point := [(0, 0); (10, 0); (0, 10); (10, 10); (5, 5)].

(** Three queries. *)
Definition centre : Point := (5, 5).
Definition corner : Point := (10, 10).
Definition inside : Point := (9, 2).


(** Four points, two of which are nearest to the query [tie_query]. *)
Definition tie_points : list Point := [(2, 0); (0, 0); (0, 4); (0, 10)].
Definition tie_built : list Point := [(0, 0); (2, 0); (0, 4); (0, 10)].
Definition tie_query : Point := (2, 3).

(** A table of [m + 1] nodes that is one chain of right children: node [i]
    has no left child, the right child [i + 1] and the threshold 10; the
    last node is a leaf.  All its points are the origin. *)
Definition chain (m : nat) : list CUDA_VPNode :=
  ((fun i => mkNode 10 i (-1) (i + 1)) <$> seqZ 0 (Z.of_nat m))
  ++ [mkNode 0 (Z.of_nat m) (-1) (-1)].

Definition chain_points (m : nat) : list Point := replicate (S m) (0, 0).

Definition chain_tree (m : nat) : CUDA_VPTree :=
  mkTree (chain m) (chain_points m) (Z.of_nat (S m)) true manhattan manhattan.

(** A query that descends the whole chain, and one that stops at the root. *)
Definition far : Point := (20, 0).
Definition near : Point := (1, 0).

(** The object as [createVPTree] hands it to [buildFromPoints] for the five
    points of [corners]. *)
Definition tree5 : CUDA_VPTree := mkTree [] [] 5 false manhattan manhattan.

(** What the loop of [KNNSearch] leaves: how it was left, the result and
    the highest cell of [nodeStack] stored to. *)
Definition outcome (r : res (loop_exit * search_state)) : option (loop_exit * Z * Q * Z) :=
  match r with
  | Ok (e, st) => Some (e, best_idx st, best_dist st, top_store st)
  | Err _ => None
  end.

End Example.


(** ** What the builder and the search rely on, and what the builder
    produces *)

Section Specs.

Context {Point : Type}.

(** The requirement of [std::nth_element] on its comparator. *)
Definition strict_weak_order (comp : Point -> Point -> bool) : Prop :=
  (forall x, comp x x = false)
  /\ (forall x y z, comp x y = true -> comp y z = true -> comp x z = true)
  /\ (forall x y z, comp x y = false -> comp y z = false -> comp x z = false).

(** The postcondition of [std::nth_element] on a sequence [s] and a
    position [k] inside it: the result is a rearrangement of [s], and no
    element from position [k] on is less than an element up to position
    [k]. *)
Definition nth_element_spec
    (nth_element : (Point -> Point -> bool) -> list Point -> nat -> list Point) : Prop :=
  forall comp s k, strict_weak_order comp -> (k < length s)%nat ->
    nth_element comp s k ≡ₚ s
    /\ forall i j x y, (i <= k)%nat -> (k <= j)%nat ->
         nth_element comp s k !! i = Some x ->
         nth_element comp s k !! j = Some y ->
         comp y x = false.

Definition symmetric (dist : @DistFunc Point) : Prop :=
  forall a b, (dist a b == dist b a)%Q.

Definition triangle (dist : @DistFunc Point) : Prop :=
  forall a b c, (dist a c <= dist a b + dist b c)%Q.

Variable node_init : CUDA_VPNode.

(** The node table and the points of one processed range, as sequences:
    [vp_seg dist l ns ps] describes the nodes [ns] stored from slot [l] on
    for the points [ps] standing from position [l] on. *)
Inductive vp_seg (dist : @DistFunc Point) : Z -> list CUDA_VPNode -> list Point -> Prop :=
| vp_seg_nil l : vp_seg dist l [] []
| vp_seg_leaf l p : vp_seg dist l [set_node_index node_init l] [p]
| vp_seg_node l u median p pm nsL psL nsR psR :
    u = l + 1 + Z.of_nat (length psL) + Z.of_nat (length psR) ->
    median = (u + l) ÷ 2 ->
    Z.of_nat (length psL) = median - (l + 1) ->
    pm ∈ psR ->
    Forall (fun x => (dist p x <= dist p pm)%Q) psL ->
    Forall (fun x => (dist p pm <= dist p x)%Q) psR ->
    vp_seg dist (l + 1) nsL psL ->
    vp_seg dist median nsR psR ->
    vp_seg dist l
      (mkNode (dist p pm) l (if decide (median <> l + 1) then l + 1 else -1) median
         :: nsL ++ nsR)
      (p :: psL ++ psR).

(** The same by positions in the whole table: [subtree dist nodes pts h l u]
    says that slot [l] holds the root of a tree of at most [h] levels over
    the points at positions [l .. u-1]. *)
Inductive subtree (dist : @DistFunc Point) (nodes : list CUDA_VPNode) (pts : list Point)
    : nat -> Z -> Z -> Prop :=
| subtree_empty h l : subtree dist nodes pts h l l
| subtree_leaf h l p :
    at_index pts l = Ok p ->
    at_index nodes l = Ok (set_node_index node_init l) ->
    subtree dist nodes pts (S h) l (l + 1)
| subtree_node h l u median n p pm jm :
    u - l > 1 ->
    median = (u + l) ÷ 2 ->
    at_index pts l = Ok p ->
    at_index nodes l = Ok n ->
    index n = l ->
    left n = (if decide (median <> l + 1) then l + 1 else -1) ->
    right n = median ->
    threshold n = dist p pm ->
    median <= jm < u -> at_index pts jm = Ok pm ->
    (forall j x, l + 1 <= j < median -> at_index pts j = Ok x ->
       (dist p x <= threshold n)%Q) ->
    (forall j x, median <= j < u -> at_index pts j = Ok x ->
       (threshold n <= dist p x)%Q) ->
    subtree dist nodes pts h (l + 1) median ->
    subtree dist nodes pts h median u ->
    subtree dist nodes pts (S h) l u.

(** The ranges pushed by lines 268-269, starting from [(l0, u0)]. *)
Inductive processed (l0 u0 : Z) : Z -> Z -> Prop :=
| processed_root : processed l0 u0 l0 u0
| processed_left l u :
    processed l0 u0 l u -> u - l > 1 -> processed l0 u0 (l + 1) ((u + l) ÷ 2)
| processed_right l u :
    processed l0 u0 l u -> u - l > 1 -> processed l0 u0 ((u + l) ÷ 2) u.


End Specs.

Ltac Zify.zify_post_hook ::= Z.to_euclidean_division_equations.

(** ** Comparisons of rationals *)

Lemma Qlt_bool_iff x y : Qlt_bool x y = true <-> (x < y)%Q.
Proof.
  unfold Qlt_bool. rewrite negb_true_iff, <- not_true_iff_false, Qle_bool_iff.
  split; [apply Qnot_le_lt | apply Qlt_not_le].
Qed.

Lemma Qlt_bool_false x y : Qlt_bool x y = false <-> (y <= x)%Q.
Proof.
  unfold Qlt_bool. rewrite negb_false_iff. apply Qle_bool_iff.
Qed.

(** ** Properties of the default metric *)

Module MetricFacts.
Import Metric.























(** Telling two doubles apart by computation. *)
Definition same_double (x y : double) : bool :=
  match x, y with
  | Finite a, Finite b => a =? b
  | Infinity s, Infinity s' => Bool.eqb s s'
  | NaN, NaN => true
  | _, _ => false
  end.

Lemma same_double_refl x : same_double x x = true.
Proof.
  destruct x as [k|s|]; cbn; [apply Z.eqb_refl | by destruct s | done].
Qed.

Lemma same_double_false x y : same_double x y = false -> x <> y.
Proof.
  intros H ->. by rewrite same_double_refl in H.
Qed.






(** C3 as stated fails: the last coordinates 0 and 2^-600 differ by
    2^-600, but the square underflows and the distance returned is 0; in
    the second pair they differ by 2^600, the square overflows and the
    distance returned is infinite. *)
Lemma euclidean_distance_only_last_coordinate_counterexample :
  (dsub (coord tiny 1) (coord (point2 0 0) 1) = dyadic 1 (-600)
   /\ euclidean_distance 2 (point2 0 0) tiny = dyadic 0 0
   /\ gpu_euclidean_distance 2 (point2 0 0) tiny = dyadic 0 0
   /\ dyadic 0 0 <> dabs (dyadic 1 (-600)))
  /\ (dsub (coord huge 1) (coord (point2 0 0) 1) = dyadic 1 600
      /\ euclidean_distance 2 (point2 0 0) huge = Infinity false
      /\ gpu_euclidean_distance 2 (point2 0 0) huge = Infinity false
      /\ Infinity false <> dabs (dyadic 1 600)).
Proof.
  split; (split; [vm_compute; reflexivity|]; split; [vm_compute; reflexivity|];
          split; [vm_compute; reflexivity|]; apply same_double_false; vm_compute;
          reflexivity).
Qed.

End MetricFacts.


(** ** Vector accesses inside a segment *)

Section ListAccess.

Context {A : Type}.
Implicit Types v pre seg post : list A.

Lemma at_index_Ok v i x :
  at_index v i = Ok x <-> 0 <= i /\ v !! Z.to_nat i = Some x.
Proof.
  unfold at_index. destruct (decide (0 <= i)).
  - destruct (v !! Z.to_nat i); split; intros; destruct_and?; simplify_eq; auto.
  - split; [discriminate | lia].
Qed.

Lemma at_index_lt v i x : at_index v i = Ok x -> 0 <= i < Z.of_nat (length v).
Proof.
  intros [? H%lookup_lt_Some]%at_index_Ok. lia.
Qed.

Lemma at_index_is_Ok v i : 0 <= i < Z.of_nat (length v) -> exists x, at_index v i = Ok x.
Proof.
  intros Hi. destruct (lookup_lt_is_Some_2 v (Z.to_nat i)) as [x Hx]; [lia|].
  exists x. apply at_index_Ok. split; [lia | done].
Qed.

Lemma at_index_seg pre seg post (j : nat) x :
  seg !! j = Some x ->
  at_index (pre ++ seg ++ post) (Z.of_nat (length pre) + Z.of_nat j) = Ok x.
Proof.
  intros Hj. apply at_index_Ok. split; [lia|].
  replace (Z.to_nat (Z.of_nat (length pre) + Z.of_nat j)) with (length pre + j)%nat by lia.
  rewrite lookup_app_r by lia.
  replace (length pre + j - length pre)%nat with j by lia.
  by apply lookup_app_l_Some.
Qed.

Lemma at_index_seg_inv pre seg post i x :
  Z.of_nat (length pre) <= i < Z.of_nat (length pre) + Z.of_nat (length seg) ->
  at_index (pre ++ seg ++ post) i = Ok x ->
  seg !! (Z.to_nat i - length pre)%nat = Some x.
Proof.
  intros Hi [_ H]%at_index_Ok.
  rewrite lookup_app_r in H by lia. by rewrite lookup_app_l in H by lia.
Qed.

Lemma set_index_seg pre seg post (j : nat) x :
  (j < length seg)%nat ->
  set_index (pre ++ seg ++ post) (Z.of_nat (length pre) + Z.of_nat j) x
  = Ok (pre ++ <[j := x]> seg ++ post).
Proof.
  intros Hj. unfold set_index. rewrite !length_app.
  rewrite decide_True by lia. f_equal.
  replace (Z.to_nat (Z.of_nat (length pre) + Z.of_nat j)) with (length pre + j)%nat by lia.
  rewrite insert_app_r. by rewrite insert_app_l.
Qed.

End ListAccess.


(** ** The builder: one range at a time *)

Section BuilderFacts.

Context {Point : Type}.
Variable node_init : CUDA_VPNode.
Variable nth_element : (Point -> Point -> bool) -> list Point -> nat -> list Point.
Hypothesis Hnth : nth_element_spec nth_element.

Implicit Types pre seg post : list Point.
Implicit Types npre npost : list CUDA_VPNode.

Lemma DistComparator_strict_weak_order (item : Point) (dist : DistFunc) :
  strict_weak_order (DistComparator item dist).
Proof.
  unfold DistComparator. split; [|split].
  - intros x. apply Qlt_bool_false. apply Qle_refl.
  - intros x y z. rewrite !Qlt_bool_iff. apply Qlt_trans.
  - intros x y z. rewrite !Qlt_bool_false. intros. by eapply Qle_trans.
Qed.

Lemma swap_seg pre seg post (m : nat) p0 pm :
  seg !! 0%nat = Some p0 -> seg !! m = Some pm ->
  swap (pre ++ seg ++ post) (Z.of_nat (length pre)) (Z.of_nat (length pre) + Z.of_nat m)
  = Ok (pre ++ <[m := p0]> (<[0%nat := pm]> seg) ++ post).
Proof.
  intros H0 Hm. unfold swap.
  pose proof (at_index_seg pre seg post _ _ H0) as E0.
  pose proof (set_index_seg pre seg post 0 pm) as S0.
  rewrite Z.add_0_r in E0, S0.
  rewrite E0, (at_index_seg _ _ _ _ _ Hm). cbn.
  rewrite S0 by (by eapply lookup_lt_Some). cbn.
  rewrite set_index_seg; [done|].
  rewrite length_insert. by eapply lookup_lt_Some.
Qed.

Lemma std_nth_element_seg pre seg post first nth last comp :
  first = Z.of_nat (length pre) ->
  last = first + Z.of_nat (length seg) ->
  first <= nth ->
  nth <= last ->
  std_nth_element nth_element (pre ++ seg ++ post) first nth last comp
  = Ok (pre ++ nth_element comp seg (Z.to_nat (nth - first)) ++ post).
Proof.
  intros -> -> ? ?. unfold std_nth_element.
  rewrite decide_True by (rewrite !length_app; lia).
  do 2 f_equal.
  - rewrite Nat2Z.id. by rewrite take_app_length.
  - rewrite Nat2Z.id, drop_app_length.
    replace (Z.to_nat (Z.of_nat (length pre) + Z.of_nat (length seg)) - length pre)%nat
      with (length seg) by lia.
    rewrite take_app_length.
    replace (Z.to_nat (Z.of_nat (length pre) + Z.of_nat (length seg)))
      with (length pre + length seg)%nat by lia.
    f_equal. rewrite drop_app_ge by lia.
    replace (length pre + length seg - length pre)%nat with (length seg) by lia.
    by rewrite drop_app_length.
Qed.

Lemma build_loop_unfold dist fuel st lower upper rest :
  ranges_to_process st = (lower, upper) :: rest ->
  build_loop nth_element dist (S fuel) st
  = (st' ← build_body nth_element dist st lower upper rest;
     build_loop nth_element dist fuel st').
Proof.
  intros H. cbn. by rewrite H.
Qed.

Lemma bind_Ok {A B : Type} (a : A) (k : A -> res B) : (x ← Ok a; k x) = k a.
Proof. reflexivity. Qed.

Lemma build_body_empty dist st l rest :
  build_body nth_element dist st l l rest
  = Ok (mkBuild (nodeCount st) (cpu_nodes st) rest (data st)).
Proof.
  unfold build_body. by rewrite decide_True.
Qed.

Lemma build_body_leaf dist npre npost rest0 rest v :
  let l := Z.of_nat (length npre) in
  build_body nth_element dist (mkBuild l (npre ++ [node_init] ++ npost) rest0 v) l (l + 1) rest
  = Ok (mkBuild (l + 1) (npre ++ [set_node_index node_init l] ++ npost) rest v).
Proof.
  intros l.
  pose proof (at_index_seg npre [node_init] npost 0 node_init eq_refl) as E.
  pose proof (set_index_seg npre [node_init] npost 0 (set_node_index node_init l)) as S0.
  rewrite Z.add_0_r in E, S0. specialize (S0 ltac:(cbn; lia)).
  unfold build_body. rewrite decide_False by lia. subst l. cbn in *.
  rewrite E. cbn. rewrite decide_False by lia.
  rewrite S0. done.
Qed.

Lemma build_body_node dist pre seg post npre npost rest0 rest (n : nat) :
  length seg = n -> (2 <= n)%nat -> length npre = length pre ->
  let l := Z.of_nat (length pre) in
  let u := l + Z.of_nat n in
  let median := (u + l) ÷ 2 in
  exists vp psL pm psR,
    vp :: psL ++ pm :: psR ≡ₚ seg
    /\ Z.of_nat (length psL) = median - (l + 1)
    /\ Forall (fun x => (dist vp x <= dist vp pm)%Q) psL
    /\ Forall (fun x => (dist vp pm <= dist vp x)%Q) (pm :: psR)
    /\ build_body nth_element dist
         (mkBuild l (npre ++ replicate n node_init ++ npost) rest0 (pre ++ seg ++ post))
         l u rest
       = Ok (mkBuild (l + 1)
               (npre ++ (mkNode (dist vp pm) l
                           (if decide (median <> l + 1) then l + 1 else -1) median
                         :: replicate (n - 1) node_init) ++ npost)
               ((l + 1, median) :: (median, u) :: rest)
               (pre ++ (vp :: psL ++ pm :: psR) ++ post)).
Proof.
  intros Hn Hn2 Hnpre l u median.
  set (m := Z.to_nat ((u - l - 1) ÷ 2)).
  set (k := Z.to_nat (median - (l + 1))).
  assert (Hm : (m < length seg)%nat) by (subst m u; lia).
  destruct (lookup_lt_is_Some_2 seg 0) as [p0 H0]; [lia|].
  destruct (lookup_lt_is_Some_2 seg m) as [pi Hi]; [lia|].
  pose proof (Permutation_insert_swap seg 0 m p0 pi H0 Hi) as Hperm.
  remember (<[m := p0]> (<[0%nat := pi]> seg)) as seg1 eqn:Eseg1.
  assert (Hlen1 : length seg1 = n) by (apply Permutation_length in Hperm; lia).
  destruct seg1 as [|vp tl1]; [cbn in Hlen1; lia|].
  cbn in Hlen1.
  set (comp := DistComparator vp dist).
  destruct (Hnth comp tl1 k) as [Hp2 Hpart];
    [apply DistComparator_strict_weak_order | subst k median u; lia |].
  set (tl2 := nth_element comp tl1 k) in *.
  assert (Hlen2 : length tl2 = (n - 1)%nat) by (apply Permutation_length in Hp2; lia).
  destruct (lookup_lt_is_Some_2 tl2 k) as [pm Hk]; [subst k median u; lia|].
  exists vp, (take k tl2), pm, (drop (S k) tl2).
  rewrite (take_drop_middle _ _ _ Hk).
  split; [by rewrite Hp2|].
  split; [rewrite length_take; subst k median u; lia|].
  split; [|split].
  - apply Forall_forall. intros x Hx.
    apply list_elem_of_lookup in Hx as [i Hx].
    apply lookup_take_Some in Hx as [Hx Hik].
    specialize (Hpart i k x pm ltac:(lia) ltac:(lia) Hx Hk).
    by apply Qlt_bool_false in Hpart.
  - rewrite <- (drop_S _ _ _ Hk). apply Forall_forall. intros x Hx.
    apply list_elem_of_lookup in Hx as [j Hx].
    rewrite lookup_drop in Hx.
    specialize (Hpart k (k + j)%nat pm x ltac:(lia) ltac:(lia) Hk Hx).
    by apply Qlt_bool_false in Hpart.
  - unfold build_body. rewrite decide_False by (subst u; lia). cbn.
    pose proof (at_index_seg npre (replicate n node_init) npost 0 node_init) as E.
    pose proof (set_index_seg npre (replicate n node_init) npost 0) as S0.
    rewrite Z.add_0_r, Hnpre in E, S0. fold l in E, S0.
    rewrite E by (apply lookup_replicate_2; lia). cbn.
    rewrite decide_True by (subst u; lia).
    replace ((u - l - 1) ÷ 2 + l) with (l + Z.of_nat m) by (subst m u; lia).
    pose proof (swap_seg pre seg post m p0 pi H0 Hi) as Esw. fold l in Esw.
    rewrite Esw, <- Eseg1. cbn.
    pose proof (at_index_seg pre (vp :: tl1) post 0 vp eq_refl) as E1.
    rewrite Z.add_0_r in E1. fold l in E1. cbn in E1. rewrite E1. cbn.
    replace (pre ++ vp :: tl1 ++ post) with ((pre ++ [vp]) ++ tl1 ++ post)
      by (by rewrite <- app_assoc).
    rewrite (std_nth_element_seg (pre ++ [vp]) tl1 post (l + 1) median u);
      [| rewrite length_app; cbn; lia | subst u; lia | subst median u; lia
       | subst median u; lia].
    cbn. fold u median comp.
    replace (Z.to_nat (median - (l + 1))) with k by done. fold tl2.
    replace ((pre ++ [vp]) ++ tl2 ++ post) with (pre ++ (vp :: tl2) ++ post)
      by (by rewrite <- app_assoc).
    pose proof (at_index_seg pre (vp :: tl2) post 0 vp eq_refl) as E2.
    rewrite Z.add_0_r in E2. fold l in E2. rewrite E2, bind_Ok.
    pose proof (at_index_seg pre (vp :: tl2) post (S k) pm Hk) as E3.
    replace (Z.of_nat (length pre) + Z.of_nat (S k)) with median in E3
      by (subst k median u l; lia).
    rewrite E3, bind_Ok.
    rewrite (decide_True (P := u <> median)) by (subst median u; lia).
    rewrite S0 by (rewrite length_replicate; lia). cbn.
    destruct n as [|n']; [lia|]. cbn. by rewrite Nat.sub_0_r.
Qed.

Ltac reassoc :=
  repeat (rewrite <- ?app_assoc; cbn [app]); try reflexivity.

Lemma vp_seg_length dist l (ns : list CUDA_VPNode) (ps : list Point) :
  vp_seg node_init dist l ns ps -> length ns = length ps.
Proof.
  induction 1; cbn; [done | done |]. rewrite !length_app. lia.
Qed.

(** The loop started with the range [(l, l + n)] on top of the stack, the
    slots from [l] on still untouched and [nodeCount = l], comes back, after
    at most [2 n + 1] passes, with that range gone from the stack, with
    [nodeCount = l + n], the [n] slots filled and the [n] points
    rearranged; the rest of the table and of the vector is as before. *)
Lemma build_loop_range dist (n : nat) :
  forall pre seg post npre npost rest,
    length seg = n -> length npre = length pre ->
    exists (k : nat) ns seg',
      (k <= 2 * n + 1)%nat
      /\ seg' ≡ₚ seg
      /\ vp_seg node_init dist (Z.of_nat (length pre)) ns seg'
      /\ forall fuel,
           build_loop nth_element dist (k + fuel)
             (mkBuild (Z.of_nat (length pre)) (npre ++ replicate n node_init ++ npost)
                ((Z.of_nat (length pre), Z.of_nat (length pre) + Z.of_nat n) :: rest)
                (pre ++ seg ++ post))
           = build_loop nth_element dist fuel
               (mkBuild (Z.of_nat (length pre) + Z.of_nat n) (npre ++ ns ++ npost) rest
                  (pre ++ seg' ++ post)).
Proof.
  induction n as [n IH] using lt_wf_ind.
  intros pre seg post npre npost rest Hn Hnpre.
  destruct (decide (n = 0%nat)) as [->|Hn0]; [|destruct (decide (n = 1%nat)) as [->|Hn1]].
  - destruct seg; [|done].
    exists 1%nat, [], []. split; [lia|]. split; [done|]. split; [constructor|].
    intros fuel. cbn [Nat.add]. erewrite build_loop_unfold by reflexivity.
    rewrite Z.add_0_r, build_body_empty. done.
  - destruct seg as [|p [|? ?]]; try done.
    exists 1%nat, [set_node_index node_init (Z.of_nat (length pre))], [p].
    split; [lia|]. split; [done|]. split; [constructor|].
    intros fuel. cbn [Nat.add]. erewrite build_loop_unfold by reflexivity.
    pose proof (build_body_leaf dist npre npost) as Hb. cbn zeta in Hb.
    rewrite Hnpre in Hb. cbn [replicate Nat.add]. rewrite Hb. done.
  - destruct (build_body_node dist pre seg post npre npost
                ((Z.of_nat (length pre), Z.of_nat (length pre) + Z.of_nat n) :: rest)
                rest n Hn ltac:(lia) Hnpre)
      as (vp & psL & pm & psR & Hperm & HlenL & HFL & HFR & Hbody).
    cbn zeta in HlenL, Hbody.
    set (l := Z.of_nat (length pre)) in *.
    set (u := l + Z.of_nat n) in *.
    set (median := (u + l) ÷ 2) in *.
    set (node2 := mkNode (dist vp pm) l (if decide (median <> l + 1) then l + 1 else -1) median)
      in *.
    assert (Hsz : (n = 1 + length psL + S (length psR))%nat).
    { apply Permutation_length in Hperm. cbn in Hperm.
      rewrite length_app in Hperm. cbn in Hperm. lia. }
    (* the left range *)
    destruct (IH (length psL) ltac:(lia) (pre ++ [vp]) psL ((pm :: psR) ++ post)
                (npre ++ [node2]) (replicate (S (length psR)) node_init ++ npost)
                ((median, u) :: rest) eq_refl)
      as (kL & nsL & psL' & HkL & HpL & HvL & HloopL).
    { rewrite !length_app. cbn. lia. }
    (* the right range *)
    destruct (IH (S (length psR)) ltac:(lia) ((pre ++ [vp]) ++ psL') (pm :: psR) post
                ((npre ++ [node2]) ++ nsL) npost rest eq_refl)
      as (kR & nsR & psR' & HkR & HpR & HvR & HloopR).
    { rewrite !length_app. cbn. apply vp_seg_length in HvL.
      apply Permutation_length in HpL. lia. }
    assert (HlL : length psL' = length psL) by (by apply Permutation_length).
    assert (HlR : length psR' = S (length psR)) by (by apply Permutation_length in HpR).
    assert (El1 : Z.of_nat (length (pre ++ [vp])) = l + 1)
      by (rewrite length_app; cbn; lia).
    assert (El2 : Z.of_nat (length ((pre ++ [vp]) ++ psL')) = median)
      by (rewrite !length_app; cbn; lia).
    rewrite El1 in HvL, HloopL. rewrite El2 in HvR, HloopR.
    replace (l + 1 + Z.of_nat (length psL)) with median in HloopL by lia.
    replace (median + Z.of_nat (S (length psR))) with u in HloopR by lia.
    exists (1 + kL + kR)%nat, (node2 :: nsL ++ nsR), (vp :: psL' ++ psR').
    split; [lia|]. split; [|split].
    + rewrite <- Hperm, HpL. do 2 f_equiv. done.
    + eapply (vp_seg_node node_init dist l u median vp pm nsL psL' nsR psR'); try done.
      * lia.
      * lia.
      * rewrite HpR. apply list_elem_of_here.
      * by rewrite HpL.
      * by rewrite HpR.
    + intros fuel.
      replace (1 + kL + kR + fuel)%nat with (S (kL + (kR + fuel))) by lia.
      erewrite build_loop_unfold by reflexivity. rewrite Hbody, bind_Ok.
      replace (npre ++ (node2 :: replicate (n - 1) node_init) ++ npost)
        with ((npre ++ [node2]) ++ replicate (length psL) node_init
                ++ replicate (S (length psR)) node_init ++ npost).
      2:{ replace (n - 1)%nat with (length psL + S (length psR))%nat by lia.
          rewrite replicate_add. reassoc. }
      replace (pre ++ (vp :: psL ++ pm :: psR) ++ post)
        with ((pre ++ [vp]) ++ psL ++ (pm :: psR) ++ post)
        by reassoc.
      rewrite HloopL.
      replace ((npre ++ [node2]) ++ nsL ++ replicate (S (length psR)) node_init ++ npost)
        with (((npre ++ [node2]) ++ nsL) ++ replicate (S (length psR)) node_init ++ npost)
        by reassoc.
      replace ((pre ++ [vp]) ++ psL' ++ (pm :: psR) ++ post)
        with (((pre ++ [vp]) ++ psL') ++ (pm :: psR) ++ post)
        by reassoc.
      rewrite HloopR. do 2 f_equal; reassoc.
Qed.

Lemma subtree_mono dist nodes (pts : list Point) h h' l u :
  subtree node_init dist nodes pts h l u -> (h <= h')%nat ->
  subtree node_init dist nodes pts h' l u.
Proof.
  intros H. revert h'. induction H; intros h' Hh.
  - constructor.
  - destruct h'; [lia|]. by econstructor.
  - destruct h'; [lia|]. econstructor; eauto with lia.
Qed.

Lemma subtree_bounds dist nodes (pts : list Point) h l u :
  subtree node_init dist nodes pts h l u -> l <= u.
Proof.
  induction 1; lia.
Qed.

Lemma vp_seg_subtree dist l ns ps :
  vp_seg node_init dist l ns ps ->
  forall npre npost pre post,
    length npre = length pre -> l = Z.of_nat (length pre) ->
    subtree node_init dist (npre ++ ns ++ npost) (pre ++ ps ++ post)
      (length ps) l (l + Z.of_nat (length ps)).
Proof.
  induction 1 as [l | l p | l u median p pm nsL psL nsR psR Hu Hmed HlenL Hpm HFL HFR HL IHL HR IHR];
    intros npre npost pre post Hlen Hl; subst l.
  - cbn. rewrite Z.add_0_r. constructor.
  - cbn [length]. change (Z.of_nat 1) with 1. econstructor.
    + pose proof (at_index_seg pre [p] post 0 p eq_refl) as E.
      by rewrite Z.add_0_r in E.
    + pose proof (at_index_seg npre [set_node_index node_init (Z.of_nat (length pre))] npost 0 _ eq_refl) as E.
      rewrite Z.add_0_r, Hlen in E. exact E.
  - set (nd := mkNode _ _ _ _).
    pose proof (vp_seg_length _ _ _ _ HL) as HnL.
    pose proof (vp_seg_length _ _ _ _ HR) as HnR.
    assert (HpsR : (0 < length psR)%nat).
    { destruct psR; [by apply elem_of_nil in Hpm | cbn; lia]. }
    apply list_elem_of_lookup in Hpm as [im Him].
    pose proof (lookup_lt_Some _ _ _ Him) as Him_lt.
    cbn [length]. rewrite length_app.
    replace (Z.of_nat (length pre) + Z.of_nat (S (length psL + length psR))) with u by lia.
    eapply (subtree_node node_init dist _ _ _ _ u median nd p pm (median + Z.of_nat im)).
    + lia.
    + done.
    + pose proof (at_index_seg pre (p :: psL ++ psR) post 0 p eq_refl) as E.
      by rewrite Z.add_0_r in E.
    + pose proof (at_index_seg npre (nd :: nsL ++ nsR) npost 0 _ eq_refl) as E.
      rewrite Z.add_0_r, Hlen in E. exact E.
    + done.
    + done.
    + done.
    + done.
    + lia.
    + replace (median + Z.of_nat im)
        with (Z.of_nat (length pre) + Z.of_nat (S (length psL + im))) by lia.
      apply at_index_seg.
      change ((psL ++ psR) !! (length psL + im)%nat = Some pm).
      rewrite lookup_app_r by lia.
      by replace (length psL + im - length psL)%nat with im by lia.
    + intros j x Hj Hx. cbn [threshold].
      apply at_index_seg_inv in Hx; [|cbn; rewrite length_app; lia].
      replace (Z.to_nat j - length pre)%nat with (S (Z.to_nat j - length pre - 1)) in Hx by lia.
      change ((psL ++ psR) !! (Z.to_nat j - length pre - 1)%nat = Some x) in Hx.
      rewrite lookup_app_l in Hx by lia.
      eapply Forall_lookup_1 in HFL; eauto.
    + intros j x Hj Hx. cbn [threshold].
      apply at_index_seg_inv in Hx; [|cbn; rewrite length_app; lia].
      replace (Z.to_nat j - length pre)%nat with (S (Z.to_nat j - length pre - 1)) in Hx by lia.
      change ((psL ++ psR) !! (Z.to_nat j - length pre - 1)%nat = Some x) in Hx.
      rewrite lookup_app_r in Hx by lia.
      eapply Forall_lookup_1 in HFR; eauto.
    + specialize (IHL (npre ++ [nd])
                    (nsR ++ npost) (pre ++ [p]) (psR ++ post)).
      rewrite !length_app in IHL. cbn in IHL.
      specialize (IHL ltac:(lia) ltac:(lia)).
      replace (Z.of_nat (length pre) + 1 + Z.of_nat (length psL)) with median in IHL by lia.
      eapply subtree_mono; [|apply Nat.le_add_r].
      revert IHL. reassoc. done.
    + specialize (IHR ((npre ++ [nd])
                         ++ nsL)
                    npost ((pre ++ [p]) ++ psL) post).
      rewrite !length_app in IHR. cbn in IHR.
      specialize (IHR ltac:(lia) ltac:(lia)).
      replace (median + Z.of_nat (length psR)) with u in IHR by lia.
      eapply subtree_mono; [|apply Nat.le_add_l].
      revert IHR. reassoc. done.
Qed.

Lemma build_loop_done dist fuel (st : build_state) :
  ranges_to_process st = [] -> build_loop nth_element dist fuel st = Ok st.
Proof.
  intros H. destruct fuel; cbn; by rewrite H.
Qed.

(** What [buildFromPoints] returns when [num_points] is the size of the
    vector, as [createVPTree] sets it. *)
Lemma buildFromPoints_spec (t : CUDA_VPTree) (v : list Point) :
  num_points t = Z.of_nat (length v) ->
  exists nodes pts,
    buildFromPoints node_init nth_element t v
    = Ok (mkTree nodes (gpu_points t) (num_points t) (tree_valid t)
            (distanceFunc t) (gpuDistanceFunc t), pts, num_points t)
    /\ pts ≡ₚ v
    /\ length nodes = length v
    /\ subtree node_init (distanceFunc t) nodes pts (length v) 0 (Z.of_nat (length v)).
Proof.
  intros HN.
  destruct (build_loop_range (distanceFunc t) (length v) [] v [] [] [] [] eq_refl eq_refl)
    as (k & ns & pts & Hk & Hperm & Hseg & Hloop).
  exists ns, pts.
  pose proof (vp_seg_length _ _ _ _ Hseg) as Hlen.
  pose proof (Permutation_length Hperm) as Hlen'.
  split; [|split; [|split]]; try done.
  - unfold buildFromPoints. rewrite HN.
    replace (Z.to_nat (2 * Z.of_nat (length v) + 1))
      with (k + (2 * length v + 1 - k))%nat by lia.
    rewrite Nat2Z.id.
    cbn [length app] in Hloop. rewrite !app_nil_r in Hloop.
    change (Z.of_nat 0) with 0 in Hloop. rewrite Z.add_0_l in Hloop.
    rewrite Hloop, build_loop_done by done. done.
  - lia.
  - pose proof (vp_seg_subtree _ _ _ _ Hseg [] [] [] [] eq_refl eq_refl) as H.
    cbn [app] in H. rewrite !app_nil_r in H.
    change (Z.of_nat (@length Point [])) with 0 in H. rewrite Z.add_0_l in H.
    by rewrite Hlen' in H.
Qed.

Lemma createVPTree_spec (t : CUDA_VPTree) (v : list Point) :
  exists nodes pts,
    createVPTree node_init nth_element t v
    = Ok (mkTree nodes pts (Z.of_nat (length v)) true (distanceFunc t) (gpuDistanceFunc t),
          pts)
    /\ pts ≡ₚ v
    /\ length nodes = length v
    /\ subtree node_init (distanceFunc t) nodes pts (length v) 0 (Z.of_nat (length v)).
Proof.
  unfold createVPTree.
  set (t1 := mkTree _ _ _ _ _ _).
  destruct (buildFromPoints_spec t1 v eq_refl) as (nodes & pts & Hb & Hperm & Hlen & Hsub).
  exists nodes, pts. rewrite Hb. cbn. done.
Qed.

(** *** Reading the table off [subtree] *)

Section Subtree.

Variable dist : @DistFunc Point.
Variable nodes : list CUDA_VPNode.
Variable pts : list Point.

Local Abbreviation subtree := (subtree node_init dist nodes pts).

Lemma subtree_processed h l u l' u' :
  subtree h l u -> processed l u l' u' -> subtree h l' u'.
Proof.
  intros H Hp. induction Hp as [|a b Hp IH Hab|a b Hp IH Hab]; [done| |].
  - inversion IH; subst; try lia. eapply subtree_mono; [eassumption | lia].
  - inversion IH; subst; try lia. eapply subtree_mono; [eassumption | lia].
Qed.

Lemma processed_trans l0 u0 l1 u1 l2 u2 :
  processed l0 u0 l1 u1 -> processed l1 u1 l2 u2 -> processed l0 u0 l2 u2.
Proof.
  intros H01 H12. induction H12; [done | by constructor | by constructor].
Qed.

(** Every slot of a range is the root of the tree of one processed
    sub-range. *)
Lemma subtree_slot h l u s :
  subtree h l u -> l <= s < u ->
  exists u', processed l u s u' /\ s < u' <= u.
Proof.
  induction 1 as [h l | h l p Hp Hn | h l u median n p pm jm Hul Hmed Hp Hn Hi Hleft Hright
                    Hthr Hjm Hpm HL HR HsL IHL HsR IHR]; intros Hs.
  - lia.
  - assert (s = l) as -> by lia. exists (l + 1). split; [constructor | lia].
  - destruct (decide (s = l)) as [->|Hne].
    { exists u. split; [constructor | lia]. }
    destruct (decide (s < median)) as [Hlt|Hge].
    + destruct IHL as (u' & Hproc & Hu'); [lia|].
      exists u'. split; [|lia].
      eapply processed_trans; [|exact Hproc].
      subst median. apply processed_left; [constructor | lia].
    + destruct IHR as (u' & Hproc & Hu'); [lia|].
      exists u'. split; [|lia].
      eapply processed_trans; [|exact Hproc].
      subst median. apply processed_right; [constructor | lia].
Qed.

Lemma subtree_lower_bound h l u : subtree h l u -> l < u -> 0 <= l.
Proof.
  intros H Hlu. inversion H; subst; try lia; by eapply at_index_lt.
Qed.




End Subtree.

End BuilderFacts.

(** ** The search on a table described by [subtree] *)

Section SearchFacts.

Context {Point : Type}.
Variable node_init : CUDA_VPNode.
Variable dist distFunc : @DistFunc Point.
Variable nodes : list CUDA_VPNode.
Variable pts : list Point.
Variable query : Point.
Variable H : nat.
Hypothesis Hinit : no_children node_init.

Local Abbreviation subtree := (subtree node_init dist nodes pts).
Local Abbreviation body := (KNNSearch_body nodes pts query distFunc).
Local Abbreviation loop := (KNNSearch_loop nodes pts query distFunc).

(** The search prunes correctly when it measures with the distance the
    table was built with, and that distance is a metric. *)
Definition good_metric : Prop :=
  symmetric dist /\ triangle dist /\ forall a b, distFunc a b = dist a b.

(** The value pushed for the range [r]: its first slot, or [-1] when the
    range is empty. *)
Definition ent (r : Z * Z) : Z := if decide (r.1 < r.2) then r.1 else -1.

Definition in_rng (j : Z) (r : Z * Z) : Prop := r.1 <= j < r.2.

Definition size (r : Z * Z) : nat := Z.to_nat (r.2 - r.1).

(** The cells [1 .. sp] of [nodeStack] hold the roots of the ranges [G]
    (top first); a range stored at cell [i] has at most [H + 1 - i]
    levels. *)
Fixpoint stack_rep (ns : Z -> Z) (sp : Z) (G : list (Z * Z)) : Prop :=
  match G with
  | [] => sp = 0
  | r :: G' =>
      ns sp = ent r
      /\ subtree (Z.to_nat (Z.of_nat H + 1 - sp)) r.1 r.2
      /\ stack_rep ns (sp - 1) G'
  end.

Definition best_ok (st : search_state) : Prop :=
  best_dist st = tau st
  /\ ((best_idx st = -1 /\ tau st = DBL_MAX)
      \/ exists p, at_index pts (best_idx st) = Ok p /\ tau st = distFunc query p).

(** Every point is owed by the current node ([cov]), or lies in a range
    of the stack, or is not closer than the best so far. *)
Definition covered (st : search_state) (cov : Z -> Prop) (G : list (Z * Z)) : Prop :=
  good_metric ->
  forall j x, at_index pts j = Ok x ->
    cov j \/ Exists (in_rng j) G \/ (tau st <= distFunc query x)%Q.

Definition SInv (st : search_state) (G : list (Z * Z)) (cov : Z -> Prop) : Prop :=
  nodeStack st 0 = -1
  /\ stack_rep (nodeStack st) (stackPtr st) G
  /\ top_store st <= Z.of_nat H
  /\ best_ok st
  /\ covered st cov G.

(** The invariant at the head of the loop: [c] is the range of the current
    node. *)
Definition Inv (st : search_state) (G : list (Z * Z)) (c : Z * Z) : Prop :=
  SInv st G (fun j => in_rng j c)
  /\ currNodeIdx st = ent c
  /\ subtree (Z.to_nat (Z.of_nat H - stackPtr st)) c.1 c.2.

(** The state in which the loop condition fails. *)
Definition Final (st : search_state) : Prop :=
  stackPtr st = -1
  /\ currNodeIdx st = -1
  /\ top_store st <= Z.of_nat H
  /\ best_ok st
  /\ (good_metric -> forall j x, at_index pts j = Ok x -> (tau st <= distFunc query x)%Q).

Definition wsum (G : list (Z * Z)) : nat :=
  sum_list ((fun r => 2 * size r + 1)%nat <$> G).

(** The number of passes still to come is at most [mu G c]. *)
Definition mu (G : list (Z * Z)) (c : Z * Z) : nat := (1 + 2 * size c + wsum G)%nat.

Lemma stack_rep_length ns sp G : stack_rep ns sp G -> sp = Z.of_nat (length G).
Proof.
  revert sp. induction G as [|r G IH]; intros sp; cbn.
  - done.
  - intros (_ & _ & HG). apply IH in HG. lia.
Qed.

Lemma stack_rep_store ns sp G i v :
  stack_rep ns sp G -> sp < i -> stack_rep (store ns i v) sp G.
Proof.
  revert sp. induction G as [|r G IH]; intros sp; cbn; [done|].
  intros (Hns & Hsub & HG) Hi. split; [|split]; [|done|apply IH; [done|lia]].
  unfold store. by rewrite decide_False by lia.
Qed.

Lemma subtree_height h l u : subtree h l u -> l < u -> (1 <= h)%nat.
Proof.
  intros Hs Hlu. inversion Hs; subst; lia.
Qed.

Lemma subtree_inv h l u :
  subtree h l u -> l < u ->
  exists h', h = S h'
    /\ ((u = l + 1
         /\ exists p, at_index pts l = Ok p
              /\ at_index nodes l = Ok (set_node_index node_init l))
        \/ (u - l > 1
            /\ exists n p pm jm,
                 at_index pts l = Ok p
                 /\ at_index nodes l = Ok n
                 /\ index n = l
                 /\ left n = (if decide ((u + l) ÷ 2 <> l + 1) then l + 1 else -1)
                 /\ right n = (u + l) ÷ 2
                 /\ threshold n = dist p pm
                 /\ (u + l) ÷ 2 <= jm < u /\ at_index pts jm = Ok pm
                 /\ (forall j x, l + 1 <= j < (u + l) ÷ 2 -> at_index pts j = Ok x ->
                       (dist p x <= threshold n)%Q)
                 /\ (forall j x, (u + l) ÷ 2 <= j < u -> at_index pts j = Ok x ->
                       (threshold n <= dist p x)%Q)
                 /\ subtree h' (l + 1) ((u + l) ÷ 2)
                 /\ subtree h' ((u + l) ÷ 2) u)).
Proof.
  intros Hs Hlu. destruct Hs as [h l | h l p Hp Hn | h l u median n p pm jm Hul Hmed Hp Hn
                                   Hi Hleft Hright Hthr Hjm Hpm HL HR HsL HsR].
  - lia.
  - exists h. split; [done|]. left. eauto.
  - exists h. split; [done|]. right. split; [done|]. subst median.
    exists n, p, pm, jm. split_and!; try done; lia.
Qed.

Lemma subtree_point h l u j :
  subtree h l u -> l <= j < u -> exists x, at_index pts j = Ok x.
Proof.
  intros Hs Hj.
  destruct (subtree_slot _ _ _ _ _ _ _ _ Hs Hj) as (u' & Hp & Hu').
  pose proof (subtree_processed _ _ _ _ _ _ _ _ _ Hs Hp) as Hs'.
  inversion Hs'; subst; try lia; eauto.
Qed.

Lemma SInv_cov st G (cov cov' : Z -> Prop) :
  SInv st G cov ->
  (good_metric -> forall j x, cov j -> at_index pts j = Ok x ->
     cov' j \/ Exists (in_rng j) G \/ (tau st <= distFunc query x)%Q) ->
  SInv st G cov'.
Proof.
  intros (H0 & Hrep & Htop & Hbest & Hcov) Himp.
  unfold SInv. split_and!; try done.
  intros Hm j x Hx. destruct (Hcov Hm j x Hx) as [Hc|[HG|Ht]]; eauto.
Qed.

Lemma SInv_push st G (cov cov' : Z -> Prop) r :
  SInv st G cov ->
  subtree (Z.to_nat (Z.of_nat H - stackPtr st)) r.1 r.2 ->
  stackPtr st + 1 <= Z.of_nat H ->
  (forall j, cov j -> cov' j \/ in_rng j r) ->
  SInv (push st (ent r)) (r :: G) cov'.
Proof.
  intros (H0 & Hrep & Htop & Hbest & Hcov) Hsub Hsp Himp.
  pose proof (stack_rep_length _ _ _ Hrep) as Hlen.
  unfold SInv, push; cbn. split_and!.
  - unfold store. by rewrite decide_False by lia.
  - unfold store. by rewrite decide_True.
  - by replace (Z.of_nat H + 1 - (stackPtr st + 1)) with (Z.of_nat H - stackPtr st) by lia.
  - replace (stackPtr st + 1 - 1) with (stackPtr st) by lia.
    apply stack_rep_store; [done|lia].
  - lia.
  - exact Hbest.
  - intros Hm j x Hx. cbn. destruct (Hcov Hm j x Hx) as [Hc|[HG|Ht]].
    + destruct (Himp j Hc); [by left | right; left; by constructor].
    + right; left. by apply Exists_cons_tl.
    + by right; right.
Qed.

Lemma SInv_pop st G :
  SInv st G (fun _ => False) ->
  match G with
  | [] => Final (pop st)
  | r :: G' => Inv (pop st) G' r
  end.
Proof.
  intros (H0 & Hrep & Htop & Hbest & Hcov).
  pose proof (stack_rep_length _ _ _ Hrep) as Hlen.
  unfold pop. rewrite decide_True by lia.
  destruct G as [|r G']; cbn in Hrep.
  - unfold Final; cbn. rewrite Hrep, H0. split_and!; try done.
    intros Hm j x Hx. destruct (Hcov Hm j x Hx) as [[]|[HG|Ht]]; [|done].
    by apply Exists_nil in HG.
  - destruct Hrep as (Hns & Hsub & HG).
    unfold Inv, SInv; cbn. split_and!; try done.
    + intros Hm j x Hx. destruct (Hcov Hm j x Hx) as [[]|[HE|Ht]]; [|by right; right].
      apply Exists_cons in HE as [Hr|HE]; [by left | by right; left].
    + by replace (Z.of_nat H - (stackPtr st - 1)) with (Z.of_nat H + 1 - stackPtr st) by lia.
Qed.

Lemma wsum_cons r G : wsum (r :: G) = (2 * size r + 1 + wsum G)%nat.
Proof. reflexivity. Qed.

Lemma tau_push_if (b : bool) st v : tau (if b then push st v else st) = tau st.
Proof. by destruct b. Qed.

(** Lines 59-63: the best so far after the current point was measured. *)
Lemma SInv_visit st G c p :
  Inv st G c -> c.1 < c.2 ->
  at_index pts c.1 = Ok p ->
  let d := distFunc query p in
  let st1 := if Qlt_bool d (tau st) then improve st d else st in
  SInv st1 G (fun j => c.1 + 1 <= j < c.2)
  /\ (tau st1 <= d)%Q
  /\ stackPtr st1 = stackPtr st
  /\ currNodeIdx st1 = currNodeIdx st.
Proof.
  intros ((H0 & Hrep & Htop & Hbest & Hcov) & Hcur & Hsub) Hc Hp d st1.
  unfold ent in Hcur. rewrite decide_True in Hcur by done.
  subst st1. destruct (Qlt_bool d (tau st)) eqn:Hlt.
  - apply Qlt_bool_iff in Hlt. unfold SInv, improve; cbn. split_and!; try done.
    + split; [done|]. right. exists p. by rewrite Hcur.
    + intros Hm j x Hx. cbn. destruct (Hcov Hm j x Hx) as [Hj|[HG|Ht]].
      * destruct (decide (j = c.1)) as [->|Hne].
        -- right; right. rewrite Hp in Hx. injection Hx as <-. apply Qle_refl.
        -- left. unfold in_rng in Hj. lia.
      * by right; left.
      * right; right. apply Qlt_le_weak. by eapply Qlt_le_trans.
    + apply Qle_refl.
  - apply Qlt_bool_false in Hlt. unfold SInv. split_and!; try done.
    intros Hm j x Hx. destruct (Hcov Hm j x Hx) as [Hj|[HG|Ht]].
    * destruct (decide (j = c.1)) as [->|Hne].
      -- right; right. rewrite Hp in Hx. by injection Hx as <-.
      -- left. unfold in_rng in Hj. lia.
    * by right; left.
    * by right; right.
Qed.

(** The two conditional pushes of lines 71-76 (or 86-91), for the ranges
    [r1] then [r2] of the children. *)
Lemma SInv_push_two st G r1 r2 (b1 b2 : bool) h' :
  SInv st G (fun j => in_rng j r1 \/ in_rng j r2) ->
  subtree h' r1.1 r1.2 -> subtree h' r2.1 r2.2 ->
  (1 <= h')%nat -> (S h' <= Z.to_nat (Z.of_nat H - stackPtr st))%nat ->
  (b1 = false -> good_metric -> forall j x, in_rng j r1 -> at_index pts j = Ok x ->
     (tau st <= distFunc query x)%Q) ->
  (b2 = false -> good_metric -> forall j x, in_rng j r2 -> at_index pts j = Ok x ->
     (tau st <= distFunc query x)%Q) ->
  let sa := if b1 then push st (ent r1) else st in
  let sb := if b2 then push sa (ent r2) else sa in
  exists Gb,
    SInv sb Gb (fun _ => False)
    /\ (wsum Gb <= wsum G + (2 * size r1 + 1) + (2 * size r2 + 1))%nat
    /\ stackPtr sb <= Z.of_nat H.
Proof.
  intros HS Hs1 Hs2 Hh' Hh Hp1 Hp2 sa sb.
  pose proof (stack_rep_length _ _ _ (proj1 (proj2 HS))) as Hlen.
  assert (exists Ga, SInv sa Ga (fun j => in_rng j r2)
            /\ (wsum Ga <= wsum G + (2 * size r1 + 1))%nat
            /\ stackPtr st <= stackPtr sa <= stackPtr st + 1
            /\ tau sa = tau st) as (Ga & HSa & Hwa & Hspa & Hta).
  { subst sa. destruct b1.
    - exists (r1 :: G). split; [|split; [|split]].
      + apply (SInv_push st G _ _ r1 HS).
        * eapply subtree_mono; [exact Hs1 | lia].
        * lia.
        * intros j [?|?]; auto.
      + rewrite wsum_cons. lia.
      + cbn. lia.
      + done.
    - exists G. split; [|split; [|split]]; [|lia|lia|done].
      apply (SInv_cov st G _ _ HS). intros Hm j x [Hj|Hj] Hx; [|by left].
      right; right. by eapply Hp1. }
  subst sb. destruct b2.
  - exists (r2 :: Ga). split; [|split].
    + apply (SInv_push sa Ga _ _ r2 HSa).
      * eapply subtree_mono; [exact Hs2 | lia].
      * lia.
      * intros j ?; auto.
    + rewrite wsum_cons. lia.
    + cbn. lia.
  - exists Ga. split; [|split]; [|lia|lia].
    apply (SInv_cov sa Ga _ _ HSa). intros Hm j x Hj Hx.
    right; right. rewrite Hta. by eapply Hp2.
Qed.

(** Lines 77-83 / 92-98 and 101-103 after the pushes. *)
Lemma SInv_check_pop sb Gb bound :
  SInv sb Gb (fun _ => False) ->
  (wsum Gb < bound)%nat ->
  stackPtr sb <= Z.of_nat H ->
  exists s,
    (if decide (stackPtr sb > CUDA_STACK_SIZE) then Ok (Break (fail sb))
     else Ok (Continue (pop sb))) = Ok s
    /\ match s with
       | Break st' =>
           CUDA_STACK_SIZE < Z.of_nat H
           /\ best_idx st' = -1 /\ best_dist st' = (-1 # 1)%Q
           /\ top_store st' <= Z.of_nat H
       | Continue st' =>
           Final st' \/ exists G' c', Inv st' G' c' /\ (mu G' c' < bound)%nat
       end.
Proof.
  intros HS Hw Hsp. destruct (decide (stackPtr sb > CUDA_STACK_SIZE)).
  - eexists; split; [done|]. cbn. split; [lia|]. split; [done|]. split; [done|].
    apply HS.
  - eexists; split; [done|]. cbn.
    pose proof (SInv_pop _ _ HS) as Hpop. destruct Gb as [|r G'].
    + by left.
    + right. exists G', r. split; [done|]. unfold mu. rewrite wsum_cons in Hw. lia.
Qed.

Lemma prune_right n p x d t :
  good_metric ->
  (threshold n <= dist p x)%Q -> d = distFunc query p ->
  Qle_bool (threshold n) (d + t) = false ->
  (t <= distFunc query x)%Q.
Proof.
  intros (Hsym & Htri & Heq) Hthr -> Hb.
  apply not_true_iff_false in Hb. rewrite Qle_bool_iff in Hb. apply Qnot_le_lt in Hb.
  rewrite !Heq in *. pose proof (Htri p query x) as Ht. pose proof (Hsym p query) as Hs.
  lra.
Qed.

Lemma prune_left n p x d t :
  good_metric ->
  (dist p x <= threshold n)%Q -> d = distFunc query p ->
  Qle_bool (d - t) (threshold n) = false ->
  (t <= distFunc query x)%Q.
Proof.
  intros (Hsym & Htri & Heq) Hthr -> Hb.
  apply not_true_iff_false in Hb. rewrite Qle_bool_iff in Hb. apply Qnot_le_lt in Hb.
  rewrite !Heq in *. pose proof (Htri query x p) as Ht. pose proof (Hsym x p) as Hs.
  lra.
Qed.

(** One pass of the loop from a state that satisfies the invariant. *)
Lemma body_step st G c :
  Inv st G c ->
  exists s,
    body st = Ok s
    /\ match s with
       | Break st' =>
           CUDA_STACK_SIZE < Z.of_nat H
           /\ best_idx st' = -1 /\ best_dist st' = (-1 # 1)%Q
           /\ top_store st' <= Z.of_nat H
       | Continue st' =>
           Final st' \/ exists G' c', Inv st' G' c' /\ (mu G' c' < mu G c)%nat
       end.
Proof.
  intros HI. destruct c as [l u].
  pose proof HI as (HS0 & Hcur & Hsub). cbn [fst snd] in Hsub.
  unfold KNNSearch_body. unfold ent in Hcur. cbn [fst snd] in Hcur.
  destruct (decide (l < u)) as [Hlu|Hlu].
  - (* a node is current *)
    assert (exists p, at_index pts l = Ok p) as [p Hp]
      by (eapply subtree_point; [exact Hsub | lia]).
    pose proof (at_index_lt _ _ _ Hp) as Hl0.
    destruct (SInv_visit st G (l, u) p HI Hlu Hp) as (HS1 & Htau1 & Hsp1 & Hc1).
    cbn [fst snd] in HS1. cbv zeta in HS1, Htau1, Hsp1, Hc1.
    rewrite Hcur, decide_True by lia. rewrite Hp, bind_Ok.
    set (d := distFunc query p) in *.
    set (st1 := if Qlt_bool d (tau st) then improve st d else st) in *.
    destruct (subtree_inv _ _ _ Hsub Hlu)
      as (h & Eh & [(-> & p' & Hp' & Hn)
                   |(Hul & n & p' & pm & jm & Hp' & Hn & Hi & Hleft & Hright & Hthr
                       & Hjm & Hpm & HL & HR & HsL & HsR)]).
    + (* a leaf *)
      rewrite Hn, bind_Ok.
      assert (is_leaf (set_node_index node_init l) = true) as ->.
      { unfold is_leaf. cbn. destruct Hinit as [-> ->]. done. }
      eexists; split; [done|]. cbn. right. exists G, (l + 1, l + 1). split.
      * unfold Inv. split; [|split].
        -- exact HS1.
        -- cbn. unfold ent. cbn. by rewrite decide_False by lia.
        -- cbn. constructor.
      * unfold mu, size. cbn. lia.
    + (* an inner node *)
      rewrite Hp in Hp'. injection Hp' as <-.
      rewrite Hn, bind_Ok.
      set (median := (u + l) ÷ 2) in *.
      assert (is_leaf n = false) as ->.
      { unfold is_leaf. rewrite Hright. apply andb_false_iff. right.
        apply Z.eqb_neq. lia. }
      assert (Hh1 : (1 <= h)%nat) by (eapply subtree_height; [exact HsR | lia]).
      assert (HentL : left n = ent (l + 1, median)).
      { rewrite Hleft. unfold ent. cbn. repeat case_decide; lia. }
      assert (HentR : right n = ent (median, u)).
      { rewrite Hright. unfold ent. cbn. by rewrite decide_True by lia. }
      assert (Hsz : (size ((l + 1)%Z, median) + size (median, u) + 1 = size (l, u))%nat)
        by (unfold size; cbn; lia).
      unfold push_children. rewrite HentL, HentR.
      destruct (Qlt_bool d (threshold n)) eqn:Hcmp.
      * rewrite tau_push_if.
        destruct (SInv_push_two st1 G (median, u) (l + 1, median)
                    (Qle_bool (threshold n) (d + tau st1))
                    (Qle_bool (d - tau st1) (threshold n)) h)
          as (Gb & HSb & Hwb & Hspb); try done.
        -- apply (SInv_cov st1 G _ _ HS1). intros _ j x Hj _. left.
           unfold in_rng; cbn. lia.
        -- lia.
        -- intros Hb Hm j x Hj Hx. eapply prune_right; eauto.
        -- intros Hb Hm j x Hj Hx. eapply prune_left; eauto.
        -- apply (SInv_check_pop _ Gb (mu G (l, u)) HSb); [unfold mu; lia | done].
      * rewrite tau_push_if.
        destruct (SInv_push_two st1 G (l + 1, median) (median, u)
                    (Qle_bool (d - tau st1) (threshold n))
                    (Qle_bool (threshold n) (d + tau st1)) h)
          as (Gb & HSb & Hwb & Hspb); try done.
        -- apply (SInv_cov st1 G _ _ HS1). intros _ j x Hj _. left.
           unfold in_rng; cbn. lia.
        -- lia.
        -- intros Hb Hm j x Hj Hx. eapply prune_left; eauto.
        -- intros Hb Hm j x Hj Hx. eapply prune_right; eauto.
        -- apply (SInv_check_pop _ Gb (mu G (l, u)) HSb); [unfold mu; lia | done].
  - (* no node is current *)
    rewrite Hcur, decide_False by lia.
    eexists; split; [done|]. cbn.
    assert (HS : SInv st G (fun _ => False)).
    { apply (SInv_cov st G _ _ HS0). intros _ j x Hj _. unfold in_rng in Hj; cbn in Hj. lia. }
    pose proof (SInv_pop _ _ HS) as Hpop. destruct G as [|r G'].
    + by left.
    + right. exists G', r. split; [done|]. unfold mu. rewrite wsum_cons. lia.
Qed.

Lemma Inv_loop_cond st G c : Inv st G c -> loop_cond st = true.
Proof.
  intros ((_ & Hrep & _) & _). apply stack_rep_length in Hrep.
  unfold loop_cond. rewrite bool_decide_eq_true_2 by lia. done.
Qed.

Lemma Final_loop fuel st : Final st -> loop fuel st = Ok (CondFalse, st).
Proof.
  intros (Hsp & Hcur & _).
  assert (loop_cond st = false) as Hc.
  { unfold loop_cond. rewrite Hsp, Hcur. done. }
  destruct fuel; cbn; by rewrite Hc.
Qed.

(** The loop terminates from every state that satisfies the invariant. *)
Lemma loop_total fuel :
  forall st G c,
    Inv st G c -> (mu G c <= fuel)%nat ->
    exists e st',
      loop fuel st = Ok (e, st')
      /\ top_store st' <= Z.of_nat H
      /\ match e with
         | CondFalse => Final st'
         | CapacityBreak =>
             CUDA_STACK_SIZE < Z.of_nat H
             /\ best_idx st' = -1 /\ best_dist st' = (-1 # 1)%Q
         end.
Proof.
  induction fuel as [|fuel IH]; intros st G c HI Hmu.
  - unfold mu in Hmu. lia.
  - cbn. rewrite (Inv_loop_cond _ _ _ HI).
    destruct (body_step st G c HI) as (s & Hs & Hpost). rewrite Hs, bind_Ok.
    destruct s as [st'|st'].
    + destruct Hpost as [HF|(G' & c' & HI' & Hlt)].
      * exists CondFalse, st'. rewrite Final_loop by done. split; [done|].
        split; [apply HF | done].
      * apply (IH st' G' c' HI'). lia.
    + exists CapacityBreak, st'. split; [done|]. split; [apply Hpost|].
      split_and!; apply Hpost.
Qed.

Lemma Inv_init N :
  N = Z.of_nat (length pts) -> 1 <= N ->
  subtree H 0 N ->
  Inv search_init [] (0, N).
Proof.
  intros HN HN1 Hsub. unfold Inv, SInv, search_init; cbn. split_and!; try done.
  - lia.
  - split; [done|]. by left.
  - intros _ j x Hx. left. apply at_index_lt in Hx. unfold in_rng; cbn. lia.
  - unfold ent; cbn. by rewrite decide_True by lia.
  - by rewrite Z.sub_0_r, Nat2Z.id.
Qed.

(** The search on the table of a non-empty range [(0, N)]: it returns
    within [2 N + 1] passes; no cell above [H] is stored to; the capacity
    branch is taken only if [H] exceeds [CUDA_STACK_SIZE]. *)
Lemma loop_from_init N fuel :
  N = Z.of_nat (length pts) -> 1 <= N ->
  subtree H 0 N ->
  (Z.to_nat (2 * N + 1) <= fuel)%nat ->
  exists e st',
    loop fuel search_init = Ok (e, st')
    /\ top_store st' <= Z.of_nat H
    /\ match e with
       | CondFalse => Final st'
       | CapacityBreak =>
           CUDA_STACK_SIZE < Z.of_nat H
           /\ best_idx st' = -1 /\ best_dist st' = (-1 # 1)%Q
       end.
Proof.
  intros HN HN1 Hsub Hfuel.
  apply (loop_total fuel search_init [] (0, N)); [by apply Inv_init|].
  unfold mu, size, wsum. cbn. lia.
Qed.

(** The height bound of [subtree] can be read off the table. *)
Lemma subtree_depth h l u :
  subtree h l u ->
  forall fuel k, l < u -> u - l <= Z.of_nat fuel ->
    (depth fuel nodes l <= k)%nat -> subtree k l u.
Proof.
  induction 1 as [h l | h l p Hp Hn | h l u median n p pm jm Hul Hmed Hp Hn Hi Hleft Hright
                    Hthr Hjm Hpm HL HR HsL IHL HsR IHR]; intros fuel k Hlu Hfuel Hd.
  - lia.
  - destruct fuel as [|fuel]; [lia|]. cbn in Hd. rewrite Hn in Hd.
    destruct k as [|k]; [lia|]. by econstructor.
  - destruct fuel as [|fuel]; [lia|]. cbn in Hd. rewrite Hn in Hd.
    destruct k as [|k]; [lia|].
    eapply (subtree_node node_init dist nodes pts k l u median n p pm jm); try done.
    + destruct (decide (l + 1 < median)) as [Hlt|Hge].
      * apply (IHL fuel k Hlt); [lia|].
        rewrite Hleft, decide_True in Hd by lia. lia.
      * replace median with (l + 1) by lia. constructor.
    + apply (IHR fuel k); [lia|lia|]. rewrite Hright in Hd. lia.
Qed.

End SearchFacts.

(** ** The exhaustive scan *)

Section LinearScan.

Context {Point : Type}.
Variable distFunc : @DistFunc Point.
Variable query : Point.


End LinearScan.


(** ** The kernel and the batch *)

Section BatchFacts.

Context {Point : Type}.
Variable fuel : nat.
Variable nodes : list CUDA_VPNode.
Variable pts : list Point.
Variable num_pts : Z.
Variable queries : list Point.
Variable distFunc : @DistFunc Point.

Local Abbreviation n := (length queries).
Local Abbreviation kernel :=
  (KNNSearchBatch fuel nodes pts num_pts queries (Z.of_nat n) distFunc).
Local Abbreviation search := (fun q => KNNSearch fuel nodes pts q distFunc).

Lemma elem_of_grid numBlocks blockSize idx :
  idx ∈ grid numBlocks blockSize
  <-> exists b t, 0 <= b < numBlocks /\ 0 <= t < blockSize /\ idx = b * blockSize + t.
Proof.
  unfold grid. rewrite list_elem_of_bind. split.
  - intros (b & Hin & Hb). apply elem_of_seqZ in Hb.
    apply list_elem_of_bind in Hin as (t & Hin & Ht). apply elem_of_seqZ in Ht.
    apply list_elem_of_singleton in Hin. exists b, t. lia.
  - intros (b & t & Hb & Ht & ->). exists b. split; [|apply elem_of_seqZ; lia].
    apply list_elem_of_bind. exists t. split; [|apply elem_of_seqZ; lia].
    by apply list_elem_of_singleton.
Qed.

Lemma grid_nonneg numBlocks blockSize idx :
  0 <= blockSize -> idx ∈ grid numBlocks blockSize -> 0 <= idx.
Proof.
  intros Hbs (b & t & Hb & Ht & ->)%elem_of_grid. nia.
Qed.

(** The launch of [knnSearch] has a thread for every query. *)
Lemma grid_covers (m : nat) (i : nat) :
  (i < m)%nat -> Z.of_nat i ∈ grid ((Z.of_nat m + 512 - 1) ÷ 512) 512.
Proof.
  intros Hi. apply elem_of_grid.
  exists (Z.of_nat i / 512), (Z.of_nat i mod 512). lia.
Qed.

Lemma thread_Ok idx (ret ret' : list Z * list Q) :
  0 <= idx -> length ret.1 = n -> length ret.2 = n ->
  kernel idx ret = Ok ret' ->
  length ret'.1 = n /\ length ret'.2 = n
  /\ ((Z.of_nat n <= idx /\ ret' = ret)
      \/ (idx < Z.of_nat n
          /\ exists q r, queries !! Z.to_nat idx = Some q /\ search q = Ok r
               /\ ret' = (<[Z.to_nat idx := r.1]> ret.1, <[Z.to_nat idx := r.2]> ret.2))).
Proof.
  intros Hidx Hl1 Hl2. unfold KNNSearchBatch.
  destruct (decide (idx >= Z.of_nat n)) as [Hge|Hlt].
  - intros [= <-]. split; [done|]. split; [done|]. left. split; [lia|done].
  - destruct (at_index queries idx) as [q|] eqn:Hq; [|done]. rewrite bind_Ok.
    destruct (KNNSearch fuel nodes pts q distFunc) as [[i d]|] eqn:Hs; [|done].
    rewrite bind_Ok. unfold set_index.
    rewrite !decide_True by lia. rewrite !bind_Ok. intros [= <-]. cbn.
    rewrite !length_insert. split; [done|]. split; [done|]. right. split; [lia|].
    apply at_index_Ok in Hq as [_ Hq]. exists q, (i, d). by rewrite Hs.
Qed.

Lemma thread_total idx (ret : list Z * list Q) :
  0 <= idx -> length ret.1 = n -> length ret.2 = n ->
  (forall q, q ∈ queries -> exists r, search q = Ok r) ->
  exists ret', kernel idx ret = Ok ret'.
Proof.
  intros Hidx Hl1 Hl2 Htot. unfold KNNSearchBatch.
  destruct (decide (idx >= Z.of_nat n)) as [Hge|Hlt]; [by eexists|].
  destruct (at_index_is_Ok queries idx) as [q Hq]; [lia|]. rewrite Hq, bind_Ok.
  destruct (Htot q) as [[i d] Hs].
  { apply at_index_Ok in Hq as [_ Hq]. by eapply list_elem_of_lookup_2. }
  rewrite Hs, bind_Ok. unfold set_index. rewrite !decide_True by lia.
  rewrite !bind_Ok. by eexists.
Qed.

Lemma run_threads_total ids :
  (forall idx, idx ∈ ids -> 0 <= idx) ->
  (forall q, q ∈ queries -> exists r, search q = Ok r) ->
  forall ret : list Z * list Q, length ret.1 = n -> length ret.2 = n ->
    exists ret', run_threads kernel ids ret = Ok ret'.
Proof.
  intros Hids Htot. induction ids as [|idx ids IH]; intros ret Hl1 Hl2; cbn.
  - by eexists.
  - destruct (thread_total idx ret) as [ret1 H1]; try done.
    { apply Hids. by left. }
    rewrite H1, bind_Ok.
    destruct (thread_Ok idx ret ret1) as (Hl1' & Hl2' & _); try done.
    { apply Hids. by left. }
    apply IH; [|done|done]. intros ? ?. apply Hids. by right.
Qed.

(** After the launch, the cells of a query whose thread has run hold the
    result of [KNNSearch] for that query alone; the other cells are
    untouched. *)
Lemma run_threads_inv ids :
  (forall idx, idx ∈ ids -> 0 <= idx) ->
  forall ret ret' : list Z * list Q,
    run_threads kernel ids ret = Ok ret' ->
    length ret.1 = n -> length ret.2 = n ->
    length ret'.1 = n /\ length ret'.2 = n
    /\ forall (i : nat) q, queries !! i = Some q ->
         (Z.of_nat i ∈ ids ->
            exists r, search q = Ok r /\ ret'.1 !! i = Some r.1 /\ ret'.2 !! i = Some r.2)
         /\ (Z.of_nat i ∉ ids -> ret'.1 !! i = ret.1 !! i /\ ret'.2 !! i = ret.2 !! i).
Proof.
  induction ids as [|idx ids IH]; intros Hids ret ret' Hrun Hl1 Hl2; cbn in Hrun.
  - injection Hrun as <-. split; [done|]. split; [done|]. intros i q Hq. split.
    + by intros ?%elem_of_nil.
    + done.
  - destruct (kernel idx ret) as [ret1|] eqn:H1; [|done]. rewrite bind_Ok in Hrun.
    assert (Hidx : 0 <= idx) by (apply Hids; by left).
    destruct (thread_Ok idx ret ret1 Hidx Hl1 Hl2 H1) as (Hl1' & Hl2' & Hcase).
    destruct (IH ltac:(intros ? ?; apply Hids; by right) ret1 ret' Hrun Hl1' Hl2')
      as (Hl1'' & Hl2'' & Hcells).
    split; [done|]. split; [done|]. intros i q Hq.
    destruct (Hcells i q Hq) as [Hin Hout].
    pose proof (lookup_lt_Some _ _ _ Hq) as Hi.
    destruct (decide (Z.of_nat i ∈ ids)) as [Hmem|Hnmem].
    + split; [intros _; by apply Hin|]. intros Hn. exfalso. apply Hn. by right.
    + destruct (Hout Hnmem) as [E1 E2]. rewrite E1, E2.
      destruct Hcase as [[Hge ->]|(Hlt & q' & r & Hq' & Hs & ->)].
      * split; [|done]. intros [Heq|?]%elem_of_cons; [lia|done].
      * cbn. destruct (decide (Z.to_nat idx = i)) as [<-|Hne].
        -- split; [|intros Hn; exfalso; apply Hn; apply elem_of_cons; left; lia].
           intros _. rewrite Hq in Hq'. injection Hq' as <-.
           exists r. rewrite !list_lookup_insert_eq by lia. done.
        -- rewrite !list_lookup_insert_ne by done. split; [|done].
           intros [Heq|?]%elem_of_cons; [lia|done].
Qed.

End BatchFacts.

(** ** [knnSearch] in terms of [KNNSearch] *)

Section KnnSearchFacts.

Context {Point : Type}.

Lemma length_resize {A : Type} (m : nat) (d : A) (v : list A) : length (resize m d v) = m.
Proof.
  unfold resize. rewrite length_app, length_take, length_replicate. lia.
Qed.

Lemma memcpy_all {A : Type} (dst src : list A) (m : nat) :
  length dst = m -> length src = m -> memcpy dst src m = src.
Proof.
  intros Hd Hs. unfold memcpy.
  rewrite take_ge, drop_ge by lia. apply app_nil_r.
Qed.

Lemma knnSearch_invalid fuel (t : @CUDA_VPTree Point) queries k indices distances :
  tree_valid t = false ->
  knnSearch fuel t queries k indices distances = Ok (indices, distances).
Proof.
  intros Hv. unfold knnSearch. by rewrite Hv.
Qed.

(** Whenever the batch returns, the outputs are as long as the batch and
    position [i] holds what [KNNSearch] returns for query [i] alone. *)
Lemma knnSearch_inv fuel (t : @CUDA_VPTree Point) queries k indices distances ixs ds :
  tree_valid t = true ->
  knnSearch fuel t queries k indices distances = Ok (ixs, ds) ->
  length ixs = length queries /\ length ds = length queries
  /\ forall (i : nat) q, queries !! i = Some q ->
       exists r, KNNSearch fuel (gpu_nodes t) (gpu_points t) q (gpuDistanceFunc t) = Ok r
         /\ ixs !! i = Some r.1 /\ ds !! i = Some r.2.
Proof.
  intros Hv. unfold knnSearch. rewrite Hv. cbn [negb].
  destruct (run_threads _ _ _) as [[ri rd]|] eqn:Hrun; [|done].
  rewrite bind_Ok. intros [= <- <-].
  apply run_threads_inv in Hrun as (Hl1 & Hl2 & Hcells);
    [|intros idx Hidx; by eapply grid_nonneg in Hidx|apply length_replicate..].
  cbn in Hl1, Hl2.
  rewrite !memcpy_all by (done || apply length_resize).
  split; [done|]. split; [done|]. intros i q Hq.
  destruct (Hcells i q Hq) as [Hin _].
  apply Hin, grid_covers. by eapply lookup_lt_Some.
Qed.

(** The batch returns when the search of each of its queries does. *)
Lemma knnSearch_total fuel (t : @CUDA_VPTree Point) queries k indices distances :
  (forall q, q ∈ queries ->
     exists r, KNNSearch fuel (gpu_nodes t) (gpu_points t) q (gpuDistanceFunc t) = Ok r) ->
  exists ixs ds, knnSearch fuel t queries k indices distances = Ok (ixs, ds).
Proof.
  intros Htot. unfold knnSearch. destruct (tree_valid t); cbn [negb]; [|by eauto].
  edestruct (run_threads_total fuel (gpu_nodes t) (gpu_points t) (num_points t) queries
              (gpuDistanceFunc t)) as [[ri rd] Hrun];
    [|exact Htot| | |rewrite Hrun, bind_Ok; by eauto].
  - intros idx Hidx. by eapply grid_nonneg in Hidx.
  - apply length_replicate.
  - apply length_replicate.
Qed.




(** Lines 77-83 and 92-98: leaving the loop through the capacity check
    yields the failure sentinel. *)
Lemma loop_break nodes (pts : list Point) query distFunc fuel :
  forall st st',
    KNNSearch_loop nodes pts query distFunc fuel st = Ok (CapacityBreak, st') ->
    best_idx st' = -1 /\ best_dist st' = (-1 # 1)%Q /\ stackPtr st' > CUDA_STACK_SIZE.
Proof.
  induction fuel as [|fuel IH]; intros st st'; cbn.
  - by destruct (loop_cond st).
  - destruct (loop_cond st); [|done].
    destruct (KNNSearch_body nodes pts query distFunc st) as [[st1|st1]|] eqn:Hb; [| |done].
    + rewrite bind_Ok. apply IH.
    + rewrite bind_Ok. intros [= <-].
      unfold KNNSearch_body in Hb. case_decide; [|done].
      destruct (at_index pts _); [|done]. rewrite bind_Ok in Hb.
      destruct (at_index nodes _) as [n|]; [|done]. rewrite bind_Ok in Hb.
      destruct (is_leaf n); [done|]. case_decide; [|done].
      injection Hb as <-. done.
Qed.

End KnnSearchFacts.

(** ** The properties of the builder *)

(** ** The ranges of the builder and the range of [int] *)

Section IntRange.

Lemma processed_bounds l0 u0 l u :
  processed l0 u0 l u -> l0 <= u0 -> l0 <= l /\ l <= u /\ u <= u0.
Proof.
  induction 1 as [|a b Hp IH Hab|a b Hp IH Hab]; intros Hlu; [lia| |];
    specialize (IH Hlu); lia.
Qed.

(** With at most 2^30 points the sum [upper + lower] of line 253 is an
    [int] for every range the builder handles. *)
Lemma processed_sum_in_int N l u :
  0 <= N <= 2 ^ 30 -> processed 0 N l u -> u - l > 1 -> 0 <= u + l <= INT_MAX.
Proof.
  intros HN Hp Hul. destruct (processed_bounds _ _ _ _ Hp ltac:(lia)) as (Hl & _ & Hu).
  unfold INT_MAX. lia.
Qed.

(** The last two positions are a range of the builder whatever the number
    of points. *)
Lemma processed_last_pair N : 2 <= N -> processed 0 N (N - 2) N.
Proof.
  intros HN.
  assert (H : forall n : nat, forall l, 0 <= l -> Z.of_nat n = N - l -> 2 <= N - l ->
            processed 0 N l N -> processed 0 N (N - 2) N).
  { induction n as [n IH] using lt_wf_ind. intros l Hl Hn Hsz Hp.
    destruct (decide (N - l = 2)) as [E|E].
    - by replace (N - 2) with l by lia.
    - apply (IH (Z.to_nat (N - (N + l) ÷ 2)) ltac:(lia) ((N + l) ÷ 2));
        [lia | lia | lia |].
      apply processed_right; [done | lia]. }
  apply (H (Z.to_nat N) 0); [lia | lia | lia | constructor].
Qed.

(** With more than 2^30 points that sum exceeds [INT_MAX] for the last two
    positions: the source overflows [int] there, which is why the
    statements about the builder are for at most 2^30 points. *)
Lemma processed_sum_exceeds_int N :
  2 ^ 30 < N ->
  processed 0 N (N - 2) N /\ N - (N - 2) > 1 /\ INT_MAX < N + (N - 2).
Proof.
  intros HN. split; [apply processed_last_pair; lia|]. unfold INT_MAX. lia.
Qed.

End IntRange.

Section BuilderClaims.

Context {Point : Type}.
Variable node_init : CUDA_VPNode.
Variable nth_element : (Point -> Point -> bool) -> list Point -> nat -> list Point.
Hypothesis Hnth : nth_element_spec nth_element.



(** C9: the node recorded for a range of exactly one point is the initial
    element of the table with its [index] set; so it has no children as
    soon as the initial element has none. *)
Theorem size_one_range_is_leaf (t : CUDA_VPTree) (v : list Point) :
  num_points t = Z.of_nat (length v) ->
  no_children node_init ->
  exists t' pts c,
    buildFromPoints node_init nth_element t v = Ok (t', pts, c)
    /\ forall l, processed 0 (Z.of_nat (length v)) l (l + 1) ->
         exists n, at_index (gpu_nodes t') l = Ok n
           /\ n = set_node_index node_init l
           /\ left n = -1 /\ right n = -1 /\ is_leaf n = true.
Proof.
  intros HN [Hl Hr].
  destruct (buildFromPoints_spec node_init nth_element Hnth t v HN)
    as (nodes & pts & Hb & Hperm & Hlen & Hsub).
  eexists _, pts, _. split; [exact Hb|]. cbn [gpu_nodes]. intros l Hp.
  pose proof (subtree_processed _ _ _ _ _ _ _ _ _ Hsub Hp) as Hs.
  destruct (subtree_inv _ _ _ _ _ _ _ Hs ltac:(lia))
    as (h & _ & [(_ & p & Hpt & Hn)|(Hul & _)]); [|lia].
  eexists. split; [exact Hn|]. split; [done|]. cbn.
  unfold is_leaf. cbn. rewrite Hl, Hr. done.
Qed.


End BuilderClaims.

(** ** The properties of the search *)

Section SearchClaims.

Context {Point : Type}.
Variable node_init : CUDA_VPNode.
Variable nth_element : (Point -> Point -> bool) -> list Point -> nat -> list Point.
Hypothesis Hnth : nth_element_spec nth_element.
Hypothesis Hinit : no_children node_init.






End SearchClaims.

(** ** The batch: capacity failure and missing index *)

Section BatchClaims.

Context {Point : Type}.

Lemma KNNSearch_Ok_inv fuel nodes (pts : list Point) query distFunc r :
  KNNSearch fuel nodes pts query distFunc = Ok r ->
  exists e st,
    KNNSearch_loop nodes pts query distFunc fuel search_init = Ok (e, st)
    /\ r = (best_idx st, best_dist st).
Proof.
  unfold KNNSearch.
  destruct (KNNSearch_loop nodes pts query distFunc fuel search_init) as [[e st]|]; [|done].
  rewrite bind_Ok. intros [= <-]. by exists e, st.
Qed.

(** C6: a batch returns whenever the search of each query returns (leaving
    the loop at the capacity check is a return).  In the outputs of a batch,
    position [i] holds what the loop of [KNNSearch] leaves for query [i];
    when that loop was left at the capacity check, this is the pair
    [(-1, -1.0)]; and the pair depends on the tree and on the query only:
    the same query in any other batch gets the same pair. *)
Theorem capacity_break_is_per_query (t : @CUDA_VPTree Point) (fuel : nat)
    (queries : list Point) (k : Z) (indices : list Z) (distances : list Q) :
  tree_valid t = true ->
  ((forall q, q ∈ queries ->
      exists r, KNNSearch fuel (gpu_nodes t) (gpu_points t) q (gpuDistanceFunc t) = Ok r) ->
   exists ixs ds, knnSearch fuel t queries k indices distances = Ok (ixs, ds))
  /\ forall ixs ds,
       knnSearch fuel t queries k indices distances = Ok (ixs, ds) ->
       length ixs = length queries /\ length ds = length queries
       /\ forall (i : nat) q, queries !! i = Some q ->
            exists e st,
              KNNSearch_loop (gpu_nodes t) (gpu_points t) q (gpuDistanceFunc t) fuel
                search_init = Ok (e, st)
              /\ ixs !! i = Some (best_idx st) /\ ds !! i = Some (best_dist st)
              /\ (e = CapacityBreak ->
                    stackPtr st > CUDA_STACK_SIZE
                    /\ ixs !! i = Some (-1) /\ ds !! i = Some (-1 # 1)%Q)
              /\ (forall queries' k' indices' distances' ixs' ds' (i' : nat),
                    knnSearch fuel t queries' k' indices' distances' = Ok (ixs', ds') ->
                    queries' !! i' = Some q ->
                    ixs' !! i' = ixs !! i /\ ds' !! i' = ds !! i).
Proof.
  intros Hvalid. split; [apply knnSearch_total|].
  intros ixs ds Hk.
  destruct (knnSearch_inv _ _ _ _ _ _ _ _ Hvalid Hk) as (Hl1 & Hl2 & Hcells).
  split; [done|]. split; [done|]. intros i q Hq.
  destruct (Hcells i q Hq) as (r & Hr & Hi & Hd).
  destruct (KNNSearch_Ok_inv _ _ _ _ _ _ Hr) as (e & st & Hl & ->).
  exists e, st. cbn in Hi, Hd. split; [done|]. split; [done|]. split; [done|]. split.
  - intros ->. destruct (loop_break _ _ _ _ _ _ _ Hl) as (Hb1 & Hb2 & Hsp).
    by rewrite Hi, Hd, Hb1, Hb2.
  - intros queries' k' indices' distances' ixs' ds' i' Hk' Hq'.
    destruct (knnSearch_inv _ _ _ _ _ _ _ _ Hvalid Hk') as (_ & _ & Hcells').
    destruct (Hcells' i' q Hq') as (r' & Hr' & Hi' & Hd').
    rewrite Hr in Hr'. injection Hr' as <-. by rewrite Hi, Hd, Hi', Hd'.
Qed.

(** C7, amended: while the tree is not valid, [knnSearch] returns at once
    and leaves both output vectors as the caller passed them; they are empty
    when the caller passed them empty. *)
Theorem knnSearch_without_index (t : @CUDA_VPTree Point) (fuel : nat)
    (queries : list Point) (k : Z) (indices : list Z) (distances : list Q) :
  tree_valid t = false ->
  knnSearch fuel t queries k indices distances = Ok (indices, distances)
  /\ knnSearch fuel t queries k [] [] = Ok ([], []).
Proof.
  intros Hv. split; by apply knnSearch_invalid.
Qed.

End BatchClaims.

(** ** The concrete instance *)

Module ExampleFacts.

Import Example.

Lemma manhattan_symmetric : symmetric manhattan.
Proof.
  intros a b. unfold manhattan.
  replace (Z.abs (a.1 - b.1) + Z.abs (a.2 - b.2))
    with (Z.abs (b.1 - a.1) + Z.abs (b.2 - a.2)) by lia.
  apply Qeq_refl.
Qed.

Lemma manhattan_triangle : triangle manhattan.
Proof.
  intros a b c. unfold manhattan. rewrite <- inject_Z_plus, <- Zle_Qle. lia.
Qed.

Lemma insert_by_Permutation comp x s : insert_by comp x s ≡ₚ x :: s.
Proof.
  induction s as [|y s IH]; cbn; [done|].
  destruct (comp x y); [done|]. rewrite IH. apply Permutation_swap.
Qed.

Lemma sort_by_Permutation comp s : sort_by comp s ≡ₚ s.
Proof.
  induction s as [|x s IH]; cbn; [done|].
  rewrite insert_by_Permutation. by f_equiv.
Qed.

Lemma insert_by_sorted comp x s :
  strict_weak_order comp ->
  StronglySorted (fun a b => comp b a = false) s ->
  StronglySorted (fun a b => comp b a = false) (insert_by comp x s).
Proof.
  intros (Hirr & Htr & _). induction 1 as [|y s Hs IH Hall]; cbn.
  - repeat constructor.
  - destruct (comp x y) eqn:Hxy.
    + constructor; [by constructor|]. constructor.
      * destruct (comp y x) eqn:Hyx; [|done].
        specialize (Htr _ _ _ Hxy Hyx). by rewrite Hirr in Htr.
      * eapply Forall_impl; [exact Hall|]. cbn. intros z Hz.
        destruct (comp z x) eqn:Hzx; [|done].
        specialize (Htr _ _ _ Hzx Hxy). by rewrite Hz in Htr.
    + constructor; [done|]. rewrite insert_by_Permutation. by constructor.
Qed.

Lemma sort_by_sorted comp s :
  strict_weak_order comp ->
  StronglySorted (fun a b => comp b a = false) (sort_by comp s).
Proof.
  intros Hc. induction s as [|x s IH]; cbn; [constructor|]. by apply insert_by_sorted.
Qed.

Lemma StronglySorted_lookup {A : Type} (R : A -> A -> Prop) (s : list A) :
  StronglySorted R s ->
  forall (i j : nat) x y, (i < j)%nat -> s !! i = Some x -> s !! j = Some y -> R x y.
Proof.
  induction 1 as [|a s Hs IH Hall]; intros i j x y Hij Hi Hj; [done|].
  destruct j as [|j]; [lia|]. cbn in Hj. destruct i as [|i]; cbn in Hi.
  - injection Hi as <-. eapply Forall_lookup_1 in Hall; eauto.
  - eapply (IH i j); eauto with lia.
Qed.

(** A full sort is one of the rearrangements [std::nth_element] may do. *)
Lemma nth_element_ok : nth_element_spec nth_element.
Proof.
  intros comp s k Hc Hk. unfold nth_element. split; [apply sort_by_Permutation|].
  intros i j x y Hi Hj Hx Hy.
  destruct (decide (i = j)) as [->|Hne].
  - rewrite Hx in Hy. injection Hy as <-. apply Hc.
  - eapply (StronglySorted_lookup _ _ (sort_by_sorted comp s Hc) i j); eauto with lia.
Qed.

Lemma leaf_init_no_children : no_children leaf_init.
Proof. done. Qed.

End ExampleFacts.

(** ** The capacity check on deep tables, and the instances *)

Section StackSafety.

Context {Point : Type}.
Variable node_init : CUDA_VPNode.
Variable nth_element : (Point -> Point -> bool) -> list Point -> nat -> list Point.
Hypothesis Hnth : nth_element_spec nth_element.
Hypothesis Hinit : no_children node_init.

(** On a built tree of at most [CUDA_STACK_SIZE - 1] levels the loop of
    [KNNSearch] is never left at the capacity check, and it stores to no
    cell of [nodeStack] outside the array. *)
Lemma KNNSearch_stack_safe (t : CUDA_VPTree) (v : list Point) (query : Point)
    (distFunc : DistFunc) (fuel : nat) :
  v <> [] ->
  (Z.to_nat (2 * Z.of_nat (length v) + 1) <= fuel)%nat ->
  exists t' pts,
    createVPTree node_init nth_element t v = Ok (t', pts)
    /\ ((tree_depth (gpu_nodes t') <= Z.to_nat (CUDA_STACK_SIZE - 1))%nat ->
        exists st,
          KNNSearch_loop (gpu_nodes t') (gpu_points t') query distFunc fuel search_init
          = Ok (CondFalse, st)
          /\ top_store st < CUDA_STACK_SIZE).
Proof.
  intros Hv Hfuel.
  destruct (createVPTree_spec node_init nth_element Hnth t v)
    as (nodes & pts & Hc & Hperm & Hlen & Hsub).
  eexists _, pts. split; [exact Hc|]. cbn [gpu_nodes gpu_points]. intros Hdepth.
  assert (HN : Z.of_nat (length v) = Z.of_nat (length pts))
    by (by rewrite (Permutation_length Hperm)).
  assert (HN1 : 1 <= Z.of_nat (length v)) by (destruct v; [done | cbn; lia]).
  assert (Hsub' : subtree node_init (distanceFunc t) nodes pts
                    (Z.to_nat (CUDA_STACK_SIZE - 1)) 0 (Z.of_nat (length v))).
  { eapply (subtree_depth _ _ _ _ _ _ _ Hsub (length nodes)); [lia | lia | exact Hdepth]. }
  destruct (loop_from_init node_init (distanceFunc t) distFunc nodes pts query
              (Z.to_nat (CUDA_STACK_SIZE - 1)) Hinit (Z.of_nat (length v)) fuel
              HN HN1 Hsub' Hfuel)
    as (e & st & Hl & Htop & He).
  destruct e; [|unfold CUDA_STACK_SIZE in He; lia].
  exists st. split; [done|]. unfold CUDA_STACK_SIZE in *. lia.
Qed.

(** The builder halves the ranges: a range of at most [2 ^ k] points
    yields at most [k + 1] levels. *)
Lemma subtree_size dist nodes (pts : list Point) h l u :
  subtree node_init dist nodes pts h l u ->
  forall k : nat, u - l <= 2 ^ Z.of_nat k -> subtree node_init dist nodes pts (S k) l u.
Proof.
  induction 1 as [h l | h l p Hp Hn | h l u median n p pm jm Hul Hmed Hp Hn Hi Hleft Hright
                    Hthr Hjm Hpm HL HR HsL IHL HsR IHR]; intros k Hk.
  - constructor.
  - by econstructor.
  - destruct k as [|k]; [cbn in Hk; lia|].
    rewrite Nat2Z.inj_succ, Z.pow_succ_r in Hk by lia.
    pose proof (at_index_lt _ _ _ Hp) as Hl0.
    eapply (subtree_node node_init dist nodes pts (S k) l u median n p pm jm); try done.
    + apply IHL. lia.
    + apply IHR. lia.
Qed.

Lemma depth_no_node fuel (nodes : list CUDA_VPNode) : depth fuel nodes (-1) = 0%nat.
Proof.
  destruct fuel; [done|]. cbn. unfold at_index. by rewrite decide_False by lia.
Qed.

Lemma subtree_depth_le dist nodes (pts : list Point) h l u :
  subtree node_init dist nodes pts h l u -> l < u ->
  forall fuel, (depth fuel nodes l <= h)%nat.
Proof.
  destruct Hinit as [Hil Hir].
  induction 1 as [h l | h l p Hp Hn | h l u median n p pm jm Hul Hmed Hp Hn Hi Hleft Hright
                    Hthr Hjm Hpm HL HR HsL IHL HsR IHR]; intros Hlu fuel.
  - lia.
  - destruct fuel as [|fuel]; cbn; [lia|]. rewrite Hn. cbn. rewrite Hil, Hir.
    rewrite depth_no_node. lia.
  - destruct fuel as [|fuel]; cbn; [lia|]. rewrite Hn, Hleft, Hright.
    specialize (IHR ltac:(lia) fuel).
    destruct (decide (median <> l + 1)).
    + specialize (IHL ltac:(lia) fuel). lia.
    + rewrite depth_no_node. lia.
Qed.

(** Hence a tree built from at most 2^30 points has at most 31 levels, and
    no search on it stores outside [nodeStack] or fails for lack of
    capacity. *)
Lemma KNNSearch_stack_safe_by_size (t : CUDA_VPTree) (v : list Point) (query : Point)
    (distFunc : DistFunc) (fuel : nat) :
  v <> [] ->
  Z.of_nat (length v) <= 2 ^ 30 ->
  (Z.to_nat (2 * Z.of_nat (length v) + 1) <= fuel)%nat ->
  exists t' pts,
    createVPTree node_init nth_element t v = Ok (t', pts)
    /\ (tree_depth (gpu_nodes t') <= Z.to_nat (CUDA_STACK_SIZE - 1))%nat
    /\ exists st,
         KNNSearch_loop (gpu_nodes t') (gpu_points t') query distFunc fuel search_init
         = Ok (CondFalse, st)
         /\ top_store st < CUDA_STACK_SIZE.
Proof.
  intros Hv Hsize Hfuel.
  destruct (KNNSearch_stack_safe t v query distFunc fuel Hv Hfuel)
    as (t' & pts & Hc & Hsafe).
  destruct (createVPTree_spec node_init nth_element Hnth t v)
    as (nodes & pts' & Hc' & Hperm & Hlen & Hsub).
  rewrite Hc in Hc'. injection Hc' as -> ->.
  assert (Hd : (tree_depth nodes <= Z.to_nat (CUDA_STACK_SIZE - 1))%nat).
  { assert (Hs : subtree node_init (distanceFunc t) nodes pts' 31 0 (Z.of_nat (length v))).
    { apply (subtree_size _ _ _ _ _ _ Hsub 30). change (2 ^ Z.of_nat 30) with (2 ^ 30). lia. }
    eapply subtree_depth_le; [exact Hs|]. destruct v; [done | cbn; lia]. }
  eexists _, pts'. split; [exact Hc|]. split; [exact Hd|]. by apply Hsafe.
Qed.

End StackSafety.

Module Instances.

Import Example ExampleFacts.

(** C4: on a chain of 32 nodes the search of [far] stores to
    [nodeStack[32]], one cell past the array, and the capacity check never
    fires: the search returns a point as if nothing had happened.  On a
    chain of 33 nodes the check fires, but only after the stores to
    [nodeStack[32]] and [nodeStack[33]]. *)
Theorem KNNSearch_stack_overrun :
  tree_depth (chain 31) = 32%nat
  /\ outcome (KNNSearch_loop (chain 31) (chain_points 31) far manhattan 200 search_init)
     = Some (CondFalse, 0, (20 # 1)%Q, CUDA_STACK_SIZE)
  /\ tree_depth (chain 32) = 33%nat
  /\ outcome (KNNSearch_loop (chain 32) (chain_points 32) far manhattan 200 search_init)
     = Some (CapacityBreak, -1, (-1 # 1)%Q, CUDA_STACK_SIZE + 1).
Proof.
  repeat split; vm_compute; reflexivity.
Qed.

(** The five points of [corners]: the table and the reordered points, and a
    batch of three queries. *)
Example corners_scenario :
  exists t,
    createVPTree leaf_init nth_element tree0 corners
    = Ok (t, [(0, 10); (5, 5); (0, 0); (10, 0); (10, 10)])
    /\ gpu_nodes t
       = [mkNode 10 0 1 2; mkNode 0 1 (-1) (-1); mkNode 10 2 (-1) 3;
          mkNode 10 3 (-1) 4; mkNode 0 4 (-1) (-1)]
    /\ knnSearch 11 t [centre; corner; inside] 1 [] []
       = Ok ([1; 4; 3], [0 # 1; 0 # 1; 3 # 1]%Q).
Proof.
  eexists. split; [vm_compute; reflexivity|]. split; vm_compute; reflexivity.
Qed.

(** The table of the largest depth the array can serve. *)
Example chain_of_31_levels :
  tree_depth (chain 30) = 31%nat
  /\ outcome (KNNSearch_loop (chain 30) (chain_points 30) far manhattan 200 search_init)
     = Some (CondFalse, 0, (20 # 1)%Q, CUDA_STACK_SIZE - 1).
Proof.
  repeat split; vm_compute; reflexivity.
Qed.


(** C7 as stated fails: before any build, output vectors that the caller
    passed non-empty come back non-empty. *)
Lemma knnSearch_without_index_counterexample :
  tree_valid tree0 = false
  /\ knnSearch 0 tree0 [(1, 1)] 1 [7] [3 # 2]%Q = Ok ([7], [3 # 2]%Q)
  /\ length [7] <> 0%nat.
Proof.
  repeat split; done.
Qed.

End Instances.

(** ** The theorems at concrete inputs *)

Module Witnesses.

Import Example ExampleFacts.




Lemma size_one_range_is_leaf_witness :
  num_points tree5 = Z.of_nat (length corners)
  /\ no_children leaf_init
  /\ exists t' pts c,
       buildFromPoints leaf_init nth_element tree5 corners = Ok (t', pts, c)
       /\ exists n, at_index (gpu_nodes t') 1 = Ok n
            /\ left n = -1 /\ right n = -1 /\ is_leaf n = true.
Proof.
  split; [reflexivity|]. split; [exact leaf_init_no_children|].
  destruct (size_one_range_is_leaf leaf_init nth_element nth_element_ok tree5 corners
              eq_refl leaf_init_no_children)
    as (t' & pts & c & Hb & Hleaf).
  exists t', pts, c. split; [exact Hb|].
  destruct (Hleaf 1) as (n & Hn & _ & Hl & Hr & Hlf).
  - apply (processed_left 0 5 0 5); [constructor | lia].
  - exists n. split; [exact Hn|]. split; [exact Hl|]. split; [exact Hr | exact Hlf].
Defined.

Lemma capacity_break_is_per_query_witness :
  tree_valid (chain_tree 32) = true
  /\ knnSearch 200 (chain_tree 32) [near; far; near] 1 [] []
     = Ok ([0; -1; 0], [1 # 1; -1 # 1; 1 # 1]%Q)
  /\ exists st,
       KNNSearch_loop (chain 32) (chain_points 32) far manhattan 200 search_init
       = Ok (CapacityBreak, st)
       /\ stackPtr st > CUDA_STACK_SIZE.
Proof.
  split; [reflexivity|].
  assert (Hk : knnSearch 200 (chain_tree 32) [near; far; near] 1 [] []
               = Ok ([0; -1; 0], [1 # 1; -1 # 1; 1 # 1]%Q)) by (vm_compute; reflexivity).
  split; [exact Hk|].
  destruct (capacity_break_is_per_query (chain_tree 32) 200 [near; far; near] 1 [] [] eq_refl)
    as [_ Hinv].
  destruct (Hinv _ _ Hk) as (_ & _ & Hcells).
  destruct (Hcells 1%nat far eq_refl) as (e & st & Hl & _ & _ & Hbreak & _).
  assert (He : e = CapacityBreak).
  { vm_compute in Hl. by injection Hl as <- _. }
  subst e. exists st. split; [exact Hl|]. by destruct (Hbreak eq_refl).
Defined.

Lemma knnSearch_without_index_witness :
  tree_valid tree0 = false
  /\ knnSearch 0 tree0 corners 1 [7] [3 # 2]%Q = Ok ([7], [3 # 2]%Q)
  /\ knnSearch 0 tree0 corners 1 [] [] = Ok ([], []).
Proof.
  split; [reflexivity|].
  apply (knnSearch_without_index tree0 0 corners 1 [7] [3 # 2]%Q). reflexivity.
Defined.



End Witnesses.

(** * Further properties of the code *)

(** ** The result of [KNNSearch] on any table *)

Section Soundness.

Context {Point : Type}.
Variable nodes : list CUDA_VPNode.
Variable pts : list Point.
Variable query : Point.
Variable distFunc : @DistFunc Point.

(** What lines 47-63 keep true of the best so far, whatever the table
    holds: [best_dist] and [tau] go together; the best index is [-1] while
    [tau] is still [DBL_MAX], and otherwise the position of a point at
    distance [tau], below [DBL_MAX]; and once the root was measured, [tau]
    does not exceed its distance. *)
Definition sound_best (st : search_state) : Prop :=
  best_dist st = tau st
  /\ ((best_idx st = -1 /\ tau st = DBL_MAX)
      \/ exists p, at_index pts (best_idx st) = Ok p /\ tau st = distFunc query p
           /\ (tau st < DBL_MAX)%Q)
  /\ (currNodeIdx st = 0
      \/ forall p0, at_index pts 0 = Ok p0 -> (tau st <= distFunc query p0)%Q).

Lemma fields_push_children (st : search_state) n d :
  best_idx (push_children st n d) = best_idx st
  /\ best_dist (push_children st n d) = best_dist st
  /\ tau (push_children st n d) = tau st.
Proof.
  unfold push_children. repeat (destruct (_ : bool)); done.
Qed.

Lemma fields_pop (st : search_state) :
  best_idx (pop st) = best_idx st /\ best_dist (pop st) = best_dist st
  /\ tau (pop st) = tau st.
Proof.
  unfold pop. by case_decide.
Qed.

Lemma sound_best_init : sound_best search_init.
Proof.
  unfold sound_best, search_init; cbn. split; [done|]. split; [by left | by left].
Qed.

Lemma sound_best_visit st p :
  sound_best st -> at_index pts (currNodeIdx st) = Ok p ->
  let st1 := if Qlt_bool (distFunc query p) (tau st) then improve st (distFunc query p)
             else st in
  best_dist st1 = tau st1
  /\ ((best_idx st1 = -1 /\ tau st1 = DBL_MAX)
      \/ exists p', at_index pts (best_idx st1) = Ok p' /\ tau st1 = distFunc query p'
           /\ (tau st1 < DBL_MAX)%Q)
  /\ forall p0, at_index pts 0 = Ok p0 -> (tau st1 <= distFunc query p0)%Q.
Proof.
  intros (Hbd & Hbest & Hroot) Hp st1.
  assert (Hmax : (tau st <= DBL_MAX)%Q).
  { destruct Hbest as [[_ ->]|(p' & _ & _ & Hlt)]; [apply Qle_refl | by apply Qlt_le_weak]. }
  subst st1. destruct (Qlt_bool (distFunc query p) (tau st)) eqn:Hlt.
  - apply Qlt_bool_iff in Hlt. cbn. split; [done|]. split.
    + right. exists p. split; [done|]. split; [done|]. by eapply Qlt_le_trans.
    + intros p0 Hp0. destruct Hroot as [H0|Hroot].
      * rewrite H0, Hp0 in Hp. injection Hp as <-. apply Qle_refl.
      * apply Qlt_le_weak. eapply Qlt_le_trans; [exact Hlt | by apply Hroot].
  - apply Qlt_bool_false in Hlt. split; [done|]. split; [done|].
    intros p0 Hp0. destruct Hroot as [H0|Hroot]; [|by apply Hroot].
    rewrite H0, Hp0 in Hp. by injection Hp as <-.
Qed.

Lemma body_sound st s :
  sound_best st ->
  KNNSearch_body nodes pts query distFunc st = Ok s ->
  match s with
  | Continue st' => sound_best st'
  | Break st' => best_idx st' = -1 /\ best_dist st' = (-1 # 1)%Q
  end.
Proof.
  intros Hs. unfold KNNSearch_body. case_decide as Hcur.
  - destruct (at_index pts (currNodeIdx st)) as [p|] eqn:Hp; [|done]. rewrite bind_Ok.
    destruct (at_index nodes (currNodeIdx st)) as [n|]; [|done]. rewrite bind_Ok.
    destruct (sound_best_visit st p Hs Hp) as (Hbd & Hbest & Hroot).
    set (st1 := if Qlt_bool _ _ then _ else _) in *.
    destruct (is_leaf n).
    + intros [= <-]. unfold sound_best. cbn. split; [done|]. split; [done|]. by right.
    + case_decide.
      * intros [= <-]. done.
      * intros [= <-].
        destruct (fields_pop (push_children st1 n (distFunc query p))) as (E1 & E2 & E3).
        destruct (fields_push_children st1 n (distFunc query p)) as (F1 & F2 & F3).
        unfold sound_best. rewrite E1, E2, E3, F1, F2, F3.
        split; [done|]. split; [done|]. by right.
  - intros [= <-]. destruct Hs as (Hbd & Hbest & Hroot).
    destruct (fields_pop st) as (E1 & E2 & E3).
    unfold sound_best. rewrite E1, E2, E3. split; [done|]. split; [done|].
    right. destruct Hroot as [H0|Hroot]; [|done]. lia.
Qed.

Lemma loop_sound fuel :
  forall st e st',
    sound_best st ->
    KNNSearch_loop nodes pts query distFunc fuel st = Ok (e, st') ->
    match e with
    | CondFalse => sound_best st' /\ currNodeIdx st' = -1
    | CapacityBreak => best_idx st' = -1 /\ best_dist st' = (-1 # 1)%Q
    end.
Proof.
  induction fuel as [|fuel IH]; intros st e st' Hs; cbn.
  - destruct (loop_cond st) eqn:Hc; [done|]. intros [= <- <-]. split; [done|].
    unfold loop_cond in Hc. apply orb_false_iff in Hc as [_ Hc].
    apply bool_decide_eq_false in Hc. by apply dec_stable in Hc.
  - destruct (loop_cond st) eqn:Hc.
    + destruct (KNNSearch_body nodes pts query distFunc st) as [[st1|st1]|] eqn:Hb; [| |done].
      * rewrite bind_Ok. apply IH. apply (body_sound st _ Hs Hb).
      * rewrite bind_Ok. intros [= <- <-]. apply (body_sound st _ Hs Hb).
    + intros [= <- <-]. split; [done|].
      unfold loop_cond in Hc. apply orb_false_iff in Hc as [_ Hc].
      apply bool_decide_eq_false in Hc. by apply dec_stable in Hc.
Qed.

(** X1: whatever the node table, the points and the distance function are,
    a pair returned by [KNNSearch] is the failure sentinel [(-1, -1.0)], or
    [(-1, DBL_MAX)] with the root not closer than [DBL_MAX], or the position
    of a point of the array together with the distance of exactly that
    point, which is then below [DBL_MAX] and not above the distance of the
    root.  The search never returns a position outside the point array. *)
Theorem KNNSearch_result_sound (fuel : nat) (i : Z) (d : Q) :
  KNNSearch fuel nodes pts query distFunc = Ok (i, d) ->
  (i = -1 /\ d = (-1 # 1)%Q)
  \/ (i = -1 /\ d = DBL_MAX
      /\ forall p0, at_index pts 0 = Ok p0 -> (DBL_MAX <= distFunc query p0)%Q)
  \/ (exists p, at_index pts i = Ok p /\ d = distFunc query p
        /\ 0 <= i < Z.of_nat (length pts)
        /\ (d < DBL_MAX)%Q
        /\ forall p0, at_index pts 0 = Ok p0 -> (d <= distFunc query p0)%Q).
Proof.
  unfold KNNSearch.
  destruct (KNNSearch_loop nodes pts query distFunc fuel search_init) as [[e st]|] eqn:Hl;
    [|done].
  rewrite bind_Ok. intros [= <- <-].
  pose proof (loop_sound fuel _ _ _ sound_best_init Hl) as Hpost.
  destruct e.
  - destruct Hpost as ((Hbd & Hbest & Hroot) & Hcur).
    destruct Hroot as [H0|Hroot]; [lia|]. rewrite Hbd.
    destruct Hbest as [[Hi Hmax]|(p & Hp & Htau & Hlt)].
    + right; left. split; [done|]. split; [done|]. intros p0 Hp0.
      rewrite <- Hmax. by apply Hroot.
    + right; right. exists p. split; [done|]. split; [done|].
      split; [by eapply at_index_lt|]. split; [done|]. done.
  - left. done.
Qed.

End Soundness.

(** ** The builder and the search together *)

Section BuiltTrees.

Context {Point : Type}.
Variable node_init : CUDA_VPNode.
Variable nth_element : (Point -> Point -> bool) -> list Point -> nat -> list Point.
Hypothesis Hnth : nth_element_spec nth_element.



Hypothesis Hinit : no_children node_init.


End BuiltTrees.

(** ** Exact answers through [createVPTree] and [knnSearch] *)

Section EndToEnd.

Context {Point : Type}.
Variable node_init : CUDA_VPNode.
Hypothesis Hinit : no_children node_init.

Lemma DBL_MAX_pos : (0 < DBL_MAX)%Q.
Proof. reflexivity. Qed.

(** The search on a table of at most [CUDA_STACK_SIZE] levels, with a
    device function that computes the metric of the builder. *)
Lemma KNNSearch_nearest_subtree (dist gd : @DistFunc Point) nodes (pts : list Point)
    (query : Point) (H : nat) (fuel : nat) :
  subtree node_init dist nodes pts H 0 (Z.of_nat (length pts)) ->
  Z.of_nat H <= CUDA_STACK_SIZE ->
  symmetric dist -> triangle dist -> (forall a b, gd a b = dist a b) ->
  (exists x, x ∈ pts /\ (dist query x < DBL_MAX)%Q) ->
  (Z.to_nat (2 * Z.of_nat (length pts) + 1) <= fuel)%nat ->
  exists i p,
    KNNSearch fuel nodes pts query gd = Ok (i, dist query p)
    /\ at_index pts i = Ok p
    /\ forall x, x ∈ pts -> (dist query p <= dist query x)%Q.
Proof.
  intros Hsub HH Hsym Htri Heq (x0 & Hx0 & Hd0) Hfuel.
  assert (HN1 : 1 <= Z.of_nat (length pts)).
  { destruct pts; [by apply elem_of_nil in Hx0 | cbn; lia]. }
  destruct (loop_from_init node_init dist gd nodes pts query H Hinit
              (Z.of_nat (length pts)) fuel eq_refl HN1 Hsub Hfuel)
    as (e & st & Hl & _ & He).
  destruct e; [|lia].
  destruct He as (_ & _ & _ & (Hbd & Hbest) & Hcov).
  specialize (Hcov ltac:(by split; [|split])).
  assert (Hall : forall x, x ∈ pts -> (tau st <= dist query x)%Q).
  { intros x [j Hj]%list_elem_of_lookup. rewrite <- Heq.
    apply (Hcov (Z.of_nat j)). apply at_index_Ok. split; [lia|]. by rewrite Nat2Z.id. }
  destruct Hbest as [[_ Hmax]|(p & Hp & Htau)].
  { specialize (Hall x0 Hx0). rewrite Hmax in Hall. exfalso. by eapply Qlt_not_le. }
  exists (best_idx st), p. unfold KNNSearch. rewrite Hl, bind_Ok.
  rewrite Hbd, Htau, Heq. split; [done|]. split; [done|].
  intros x Hx. rewrite <- Heq, <- Htau. by apply Hall.
Qed.

Variable nth_element : (Point -> Point -> bool) -> list Point -> nat -> list Point.
Hypothesis Hnth : nth_element_spec nth_element.

(** What the two theorems below share: the tree built after
    [injectDistanceFunc t d d], and the search of one query on it. *)
Lemma built_after_inject (t : CUDA_VPTree) (d : DistFunc) (v : list Point) (fuel : nat) :
  symmetric d -> triangle d ->
  Z.of_nat (length v) <= 2 ^ 30 ->
  (Z.to_nat (2 * Z.of_nat (length v) + 1) <= fuel)%nat ->
  exists t' pts,
    createVPTree node_init nth_element (injectDistanceFunc t d d) v = Ok (t', pts)
    /\ pts ≡ₚ v /\ tree_valid t' = true /\ gpu_points t' = pts /\ gpuDistanceFunc t' = d
    /\ forall query, (exists x, x ∈ v /\ (d query x < DBL_MAX)%Q) ->
         exists i p,
           KNNSearch fuel (gpu_nodes t') pts query d = Ok (i, d query p)
           /\ at_index pts i = Ok p /\ p ∈ v
           /\ forall x, x ∈ v -> (d query p <= d query x)%Q.
Proof.
  intros Hsym Htri Hsize Hfuel.
  destruct (createVPTree_spec node_init nth_element Hnth (injectDistanceFunc t d d) v)
    as (nodes & pts & Hc & Hperm & Hlen & Hsub).
  cbn [injectDistanceFunc distanceFunc gpuDistanceFunc] in Hc, Hsub.
  eexists _, pts. split; [exact Hc|]. cbn. split_and!; try done.
  intros query (x0 & Hx0 & Hd0).
  pose proof (Permutation_length Hperm) as Hl.
  assert (Hs : subtree node_init d nodes pts 31 0 (Z.of_nat (length pts))).
  { rewrite Hl. apply (subtree_size node_init _ _ _ _ _ _ Hsub 30).
    change (2 ^ Z.of_nat 30) with (2 ^ 30). lia. }
  destruct (KNNSearch_nearest_subtree d d nodes pts query 31 fuel Hs)
    as (i & p & Hk & Hp & Hmin); try done.
  - exists x0. by rewrite Hperm.
  - by rewrite Hl.
  - exists i, p. split; [done|]. split; [done|]. split.
    + rewrite <- Hperm. apply at_index_Ok in Hp as [_ Hp]. by eapply list_elem_of_lookup_2.
    + intros x Hx. apply Hmin. by rewrite Hperm.
Qed.

(** X4: set a symmetric distance with the triangle inequality as both the
    host and the device function, build from at most 2^30 points, and
    search a batch each of whose queries has a point at a distance below
    [DBL_MAX]: [knnSearch] returns, and for every query the index addresses,
    in the reordered vector, a point of the input that is nearest to the
    query, and the distance is the distance of that point. *)
Theorem knnSearch_nearest_end_to_end (t : CUDA_VPTree) (d : DistFunc) (v queries : list Point)
    (k : Z) (indices : list Z) (distances : list Q) (fuel : nat) :
  symmetric d -> triangle d ->
  Z.of_nat (length v) <= 2 ^ 30 ->
  (forall q, q ∈ queries -> exists x, x ∈ v /\ (d q x < DBL_MAX)%Q) ->
  (Z.to_nat (2 * Z.of_nat (length v) + 1) <= fuel)%nat ->
  exists t' pts ixs ds,
    createVPTree node_init nth_element (injectDistanceFunc t d d) v = Ok (t', pts)
    /\ pts ≡ₚ v
    /\ knnSearch fuel t' queries k indices distances = Ok (ixs, ds)
    /\ length ixs = length queries /\ length ds = length queries
    /\ forall (i : nat) q, queries !! i = Some q ->
         exists ix p,
           ixs !! i = Some ix /\ ds !! i = Some (d q p)
           /\ at_index pts ix = Ok p /\ p ∈ v
           /\ forall x, x ∈ v -> (d q p <= d q x)%Q.
Proof.
  intros Hsym Htri Hsize Hq Hfuel.
  destruct (built_after_inject t d v fuel Hsym Htri Hsize Hfuel)
    as (t' & pts & Hc & Hperm & Hvalid & Hpts & Hgd & Hsearch).
  destruct (knnSearch_total fuel t' queries k indices distances) as (ixs & ds & Hk).
  { intros q Hin. rewrite Hpts, Hgd.
    destruct (Hsearch q (Hq q Hin)) as (i & p & Hs & _). by eexists. }
  exists t', pts, ixs, ds. split; [done|]. split; [done|]. split; [done|].
  destruct (knnSearch_inv _ _ _ _ _ _ _ _ Hvalid Hk) as (Hl1 & Hl2 & Hcells).
  split; [done|]. split; [done|]. intros i q Hi.
  destruct (Hcells i q Hi) as (r & Hr & Hri & Hrd).
  destruct (Hsearch q) as (ix & p & Hs & Hp & Hin & Hmin).
  { apply Hq. by eapply list_elem_of_lookup_2. }
  rewrite Hpts, Hgd, Hs in Hr. injection Hr as <-.
  exists ix, p. done.
Qed.

(** X5: with such a distance that is moreover 0 from every point to itself,
    searching for points that were built into the tree finds, for each of
    them, a stored point at distance 0, and reports the distance as 0. *)
Theorem knnSearch_finds_stored_points (t : CUDA_VPTree) (d : DistFunc)
    (v queries : list Point) (k : Z) (indices : list Z) (distances : list Q) (fuel : nat) :
  symmetric d -> triangle d -> (forall x, d x x == 0)%Q ->
  Z.of_nat (length v) <= 2 ^ 30 ->
  (forall q, q ∈ queries -> q ∈ v) ->
  (Z.to_nat (2 * Z.of_nat (length v) + 1) <= fuel)%nat ->
  exists t' pts ixs ds,
    createVPTree node_init nth_element (injectDistanceFunc t d d) v = Ok (t', pts)
    /\ knnSearch fuel t' queries k indices distances = Ok (ixs, ds)
    /\ forall (i : nat) q, queries !! i = Some q ->
         exists ix p dd,
           ixs !! i = Some ix /\ ds !! i = Some dd /\ (dd == 0)%Q
           /\ at_index pts ix = Ok p /\ p ∈ v /\ (d q p == 0)%Q.
Proof.
  intros Hsym Htri Hrefl Hsize Hq Hfuel.
  destruct (built_after_inject t d v fuel Hsym Htri Hsize Hfuel)
    as (t' & pts & Hc & Hperm & Hvalid & Hpts & Hgd & Hsearch).
  assert (Hnear : forall q, q ∈ queries -> exists x, x ∈ v /\ (d q x < DBL_MAX)%Q).
  { intros q Hin. exists q. split; [by apply Hq|]. rewrite Hrefl. apply DBL_MAX_pos. }
  destruct (knnSearch_total fuel t' queries k indices distances) as (ixs & ds & Hk).
  { intros q Hin. rewrite Hpts, Hgd.
    destruct (Hsearch q (Hnear q Hin)) as (i & p & Hs & _). by eexists. }
  exists t', pts, ixs, ds. split; [done|]. split; [done|].
  destruct (knnSearch_inv _ _ _ _ _ _ _ _ Hvalid Hk) as (_ & _ & Hcells).
  intros i q Hi.
  assert (Hin : q ∈ queries) by (by eapply list_elem_of_lookup_2).
  destruct (Hcells i q Hi) as (r & Hr & Hri & Hrd).
  destruct (Hsearch q (Hnear q Hin)) as (ix & p & Hs & Hp & Hpv & Hmin).
  rewrite Hpts, Hgd, Hs in Hr. injection Hr as <-.
  assert (Hz : (d q p == 0)%Q).
  { apply Qle_antisym.
    - rewrite <- (Hrefl q). apply Hmin. by apply Hq.
    - pose proof (Htri q p q) as Ht. pose proof (Hsym p q) as Hs'.
      pose proof (Hrefl q) as Hr0. lra. }
  exists ix, p, (d q p). done.
Qed.

End EndToEnd.

(** ** The outputs of [knnSearch], and the empty tree *)

Section BatchEdges.

Context {Point : Type}.

(** X6: on a valid tree the final contents of [indices] and [distances] do
    not depend on what the two vectors held, nor on their lengths, when they
    were passed in, nor on the argument [k]: every cell is overwritten (or
    the call fails the same way). *)
Theorem knnSearch_overwrites_outputs (t : @CUDA_VPTree Point) (fuel : nat)
    (queries : list Point) (k k' : Z) (indices indices' : list Z)
    (distances distances' : list Q) :
  tree_valid t = true ->
  knnSearch fuel t queries k indices distances
  = knnSearch fuel t queries k' indices' distances'.
Proof.
  intros Hv. unfold knnSearch. rewrite Hv. cbn [negb].
  destruct (run_threads _ _ _) as [[ri rd]|] eqn:Hrun; [|done].
  rewrite !bind_Ok.
  apply run_threads_inv in Hrun as (Hl1 & Hl2 & _);
    [|intros idx Hidx; by eapply grid_nonneg in Hidx|apply length_replicate..].
  cbn in Hl1, Hl2.
  by rewrite !memcpy_all by (done || apply length_resize).
Qed.

Lemma grid_first numBlocks :
  0 < numBlocks -> exists rest, grid numBlocks 512 = 0 :: rest.
Proof.
  intros Hnb. unfold grid.
  rewrite (seqZ_cons 0 numBlocks) by done. rewrite bind_cons.
  rewrite (seqZ_cons 0 512) by done. rewrite bind_cons. cbn [app].
  by eexists.
Qed.

(** Line 57 reads [pts[0]] before anything else. *)
Lemma KNNSearch_no_points fuel nodes (query : Point) distFunc :
  KNNSearch (S fuel) nodes [] query distFunc = Err OutOfRange.
Proof. reflexivity. Qed.

Lemma thread_no_points fuel nodes num_pts (q : Point) qs distFunc ret :
  KNNSearchBatch (S fuel) nodes [] num_pts (q :: qs) (Z.of_nat (length (q :: qs)))
    distFunc 0 ret
  = Err OutOfRange.
Proof.
  unfold KNNSearchBatch. rewrite decide_False by (cbn [length]; lia).
  assert (at_index (q :: qs) 0 = Ok q) as -> by done.
  by rewrite bind_Ok, KNNSearch_no_points.
Qed.

(** X7: [createVPTree] accepts an empty vector and leaves a valid tree with
    an empty table; [knnSearch] of any non-empty batch on that tree then
    reads [pts[0]], outside the (empty) point array. *)
Theorem knnSearch_on_empty_tree (node_init : CUDA_VPNode)
    (nth_element : (Point -> Point -> bool) -> list Point -> nat -> list Point)
    (t : CUDA_VPTree) (queries : list Point) (k : Z) (indices : list Z)
    (distances : list Q) (fuel : nat) :
  queries <> [] -> (1 <= fuel)%nat ->
  exists t',
    createVPTree node_init nth_element t [] = Ok (t', [])
    /\ tree_valid t' = true /\ gpu_nodes t' = [] /\ gpu_points t' = []
    /\ num_points t' = 0
    /\ knnSearch fuel t' queries k indices distances = Err OutOfRange.
Proof.
  intros Hq Hfuel. eexists. split; [reflexivity|]. cbn. split_and!; try done.
  destruct queries as [|q qs]; [done|]. destruct fuel as [|fuel]; [lia|].
  unfold knnSearch. cbn [tree_valid negb gpu_nodes gpu_points gpuDistanceFunc].
  destruct (grid_first ((Z.of_nat (length (q :: qs)) + 512 - 1) ÷ 512)) as [rest ->].
  { cbn [length]. lia. }
  cbn [run_threads]. by rewrite thread_no_points.
Qed.

End BatchEdges.

(** ** Which point becomes the root *)

Section VantagePoints.

Context {Point : Type}.
Variable node_init : CUDA_VPNode.
Variable nth_element : (Point -> Point -> bool) -> list Point -> nat -> list Point.











Hypothesis Hnth : nth_element_spec nth_element.


End VantagePoints.

(** ** The shape of a built table *)

Section TableShape.

Context {Point : Type}.
Variable node_init : CUDA_VPNode.
Variable nth_element : (Point -> Point -> bool) -> list Point -> nat -> list Point.
Hypothesis Hnth : nth_element_spec nth_element.
Hypothesis Hinit : no_children node_init.


End TableShape.

(** ** Tables that [buildFromPoints] does not make *)

Section CyclicTable.

Context {Point : Type}.
Variable nodes : list CUDA_VPNode.
Variable pts : list Point.
Variable query : Point.
Variable distFunc : @DistFunc Point.

(** The state in which the search comes back to the root for ever. *)
Definition at_root (st : search_state) : Prop :=
  currNodeIdx st = 0 /\ stackPtr st = 0 /\ (0 <= tau st)%Q.

Lemma at_root_again (st : search_state) (n : CUDA_VPNode) (p : Point) :
  at_index nodes 0 = Ok n -> left n = -1 -> right n = 0 -> (threshold n < 0)%Q ->
  at_index pts 0 = Ok p -> (0 <= distFunc query p)%Q ->
  at_root st ->
  exists st', KNNSearch_body nodes pts query distFunc st = Ok (Continue st') /\ at_root st'.
Proof.
  intros Hn Hl Hr Hthr Hp Hd (Hcur & Hsp & Htau).
  unfold KNNSearch_body. rewrite decide_True by lia.
  rewrite Hcur, Hp, bind_Ok, Hn, bind_Ok.
  assert (Hleaf : is_leaf n = false) by (unfold is_leaf; rewrite Hl, Hr; done).
  rewrite Hleaf.
  set (d := distFunc query p) in *.
  set (st1 := if Qlt_bool d (tau st) then improve st d else st).
  assert (H1 : currNodeIdx st1 = 0 /\ stackPtr st1 = 0 /\ (0 <= tau st1 <= d)%Q).
  { subst st1. destruct (Qlt_bool d (tau st)) eqn:E.
    - cbn. split_and!; try done. lra.
    - apply Qlt_bool_false in E. split_and!; done. }
  destruct H1 as (Hcur1 & Hsp1 & Htau1).
  unfold push_children.
  assert (E1 : Qlt_bool d (threshold n) = false) by (apply Qlt_bool_false; lra).
  rewrite E1.
  assert (E2 : Qle_bool (d - tau st1) (threshold n) = false).
  { apply not_true_is_false. rewrite Qle_bool_iff. lra. }
  rewrite E2.
  assert (E3 : Qle_bool (threshold n) (d + tau st1) = true) by (apply Qle_bool_iff; lra).
  rewrite E3.
  rewrite decide_False by (cbn; unfold CUDA_STACK_SIZE; lia).
  eexists. split; [reflexivity|].
  unfold pop. rewrite decide_True by (cbn; lia).
  unfold at_root. cbn. rewrite Hsp1, Hr. unfold store. rewrite decide_True by done.
  split_and!; [done | lia | lra].
Qed.

(** X12: the search relies on the table having no cycle.  On a table whose
    root has a negative threshold, no left child and itself as right child,
    the loop never ends, whatever the distance (not negative) of the query
    to the root's point: each pass pushes the root once and pops it again,
    so the capacity check never stops it either. *)
Theorem KNNSearch_loops_on_cyclic_table (n : CUDA_VPNode) (p : Point) (fuel : nat) :
  at_index nodes 0 = Ok n -> left n = -1 -> right n = 0 -> (threshold n < 0)%Q ->
  at_index pts 0 = Ok p -> (0 <= distFunc query p)%Q ->
  KNNSearch fuel nodes pts query distFunc = Err OutOfFuel.
Proof.
  intros Hn Hl Hr Hthr Hp Hd.
  assert (Hloop : forall st, at_root st ->
            KNNSearch_loop nodes pts query distFunc fuel st = Err OutOfFuel).
  { induction fuel as [|fuel' IH]; intros st Hst.
    - cbn. destruct Hst as (Hcur & Hsp & _).
      unfold loop_cond. rewrite Hsp. done.
    - destruct (at_root_again st n p Hn Hl Hr Hthr Hp Hd Hst) as (st' & Hb & Hst').
      cbn. destruct Hst as (Hcur & Hsp & _).
      unfold loop_cond. rewrite Hsp. cbn. rewrite Hb, bind_Ok. by apply IH. }
  unfold KNNSearch. rewrite Hloop; [done|].
  unfold at_root. cbn. split_and!; try done; apply Qlt_le_weak, DBL_MAX_pos.
Qed.

End CyclicTable.

(** ** The launch configuration *)

Section Launch.



End Launch.

(** ** What the search reads *)

Section Frame.

Context {Point : Type}.

(** Two nodes that differ at most in their [index] field. *)
Definition same_links (n n' : CUDA_VPNode) : Prop :=
  threshold n = threshold n' /\ left n = left n' /\ right n = right n'.

Lemma at_index_Forall2 {A : Type} (R : A -> A -> Prop) (v v' : list A) i :
  Forall2 R v v' ->
  match at_index v i, at_index v' i with
  | Ok x, Ok x' => R x x'
  | Err e, Err e' => e = e'
  | _, _ => False
  end.
Proof.
  intros H. unfold at_index. case_decide; [|done].
  pose proof (Forall2_lookup_lr R v v' (Z.to_nat i)) as Hl.
  pose proof (Forall2_length _ _ _ H) as Hlen.
  destruct (v !! Z.to_nat i) as [x|] eqn:E; destruct (v' !! Z.to_nat i) as [x'|] eqn:E'.
  - by eapply Forall2_lookup_lr.
  - apply lookup_lt_Some in E. apply lookup_ge_None in E'. lia.
  - apply lookup_lt_Some in E'. apply lookup_ge_None in E. lia.
  - done.
Qed.

Lemma body_same_links nodes nodes' (pts : list Point) query distFunc st :
  Forall2 same_links nodes nodes' ->
  KNNSearch_body nodes pts query distFunc st = KNNSearch_body nodes' pts query distFunc st.
Proof.
  intros H. unfold KNNSearch_body. case_decide; [|done].
  destruct (at_index pts (currNodeIdx st)) as [p|]; [|done]. rewrite !bind_Ok.
  pose proof (at_index_Forall2 same_links nodes nodes' (currNodeIdx st) H) as Hn.
  destruct (at_index nodes (currNodeIdx st)) as [n|e];
    destruct (at_index nodes' (currNodeIdx st)) as [n'|e']; try done; [|by subst].
  rewrite !bind_Ok. destruct Hn as (Ht & Hl & Hr).
  unfold is_leaf, push_children. by rewrite Ht, Hl, Hr.
Qed.

Lemma loop_same_links nodes nodes' (pts : list Point) query distFunc fuel :
  Forall2 same_links nodes nodes' ->
  forall st,
    KNNSearch_loop nodes pts query distFunc fuel st
    = KNNSearch_loop nodes' pts query distFunc fuel st.
Proof.
  intros H. induction fuel as [|fuel IH]; intros st; cbn; [done|].
  destruct (loop_cond st); [|done].
  rewrite (body_same_links nodes nodes' pts query distFunc st H).
  destruct (KNNSearch_body nodes' pts query distFunc st) as [[st'|st']|]; [|done|done].
  rewrite !bind_Ok. apply IH.
Qed.

Lemma run_threads_ext {S : Type} (kernel kernel' : Z -> S -> res S) ids s :
  (forall idx s0, kernel idx s0 = kernel' idx s0) ->
  run_threads kernel ids s = run_threads kernel' ids s.
Proof.
  intros H. revert s. induction ids as [|idx ids IH]; intros s; cbn; [done|].
  rewrite H. destruct (kernel' idx s); [|done]. rewrite !bind_Ok. apply IH.
Qed.

(** X14: a batch search reads the thresholds and the child indices of the
    nodes, the device copy of the points, the device distance function and
    the validity flag, and nothing else of the object: the [index] fields
    written by the builder, [num_points] and the host distance function do
    not enter the result. *)
Theorem knnSearch_reads (t t' : @CUDA_VPTree Point) (fuel : nat) (queries : list Point)
    (k : Z) (indices : list Z) (distances : list Q) :
  Forall2 same_links (gpu_nodes t) (gpu_nodes t') ->
  gpu_points t = gpu_points t' ->
  gpuDistanceFunc t = gpuDistanceFunc t' ->
  tree_valid t = tree_valid t' ->
  knnSearch fuel t queries k indices distances
  = knnSearch fuel t' queries k indices distances.
Proof.
  intros Hn Hp Hg Hv. unfold knnSearch. rewrite Hv.
  destruct (tree_valid t'); cbn [negb]; [|done].
  rewrite (run_threads_ext
             (KNNSearchBatch fuel (gpu_nodes t) (gpu_points t) (num_points t) queries
                (Z.of_nat (length queries)) (gpuDistanceFunc t))
             (KNNSearchBatch fuel (gpu_nodes t') (gpu_points t') (num_points t') queries
                (Z.of_nat (length queries)) (gpuDistanceFunc t'))); [done|].
  intros idx s0. unfold KNNSearchBatch, KNNSearch. rewrite Hp, Hg.
  case_decide; [done|].
  destruct (at_index queries idx) as [q|]; [|done]. rewrite !bind_Ok.
  by rewrite (loop_same_links _ _ _ _ _ _ Hn).
Qed.

End Frame.

(** ** The further properties at concrete inputs *)

Module ExtraWitnesses.

Import Example ExampleFacts.

(** A table with a cycle at the root, and its only point. *)
Definition cycle : list CUDA_VPNode := [mkNode (-1 # 1) 0 (-1) 0].
Definition origin : Point := (0, 0).

(** [chain_tree 1] with other [index] fields, another size and another host
    function. *)
Definition renumbered : CUDA_VPTree :=
  mkTree [mkNode 10 7 (-1) 1; mkNode 0 9 (-1) (-1)] (chain_points 1) 99 true
    (fun _ _ => 0%Q) manhattan.

Lemma manhattan_self (x : Point) : (manhattan x x == 0)%Q.
Proof.
  unfold manhattan. rewrite !Z.sub_diag. reflexivity.
Qed.

Lemma KNNSearch_result_sound_witness :
  KNNSearch 200 (chain 2) (chain_points 2) far manhattan = Ok (0, (20 # 1)%Q)
  /\ exists p, at_index (chain_points 2) 0 = Ok p /\ (20 # 1)%Q = manhattan far p.
Proof.
  assert (H : KNNSearch 200 (chain 2) (chain_points 2) far manhattan = Ok (0, (20 # 1)%Q))
    by (vm_compute; reflexivity).
  split; [exact H|].
  destruct (KNNSearch_result_sound (chain 2) (chain_points 2) far manhattan 200 0 (20 # 1)%Q H)
    as [[Hi _]|[[Hi _]|(p & Hp & Hd & _)]].
  - discriminate Hi.
  - discriminate Hi.
  - exists p. split; [exact Hp | exact Hd].
Defined.



Lemma corners_near (q : Point) :
  q ∈ [centre; inside] -> exists x, x ∈ corners /\ (manhattan q x < DBL_MAX)%Q.
Proof.
  intros Hq. exists centre. split.
  - apply list_elem_of_lookup. by exists 4%nat.
  - apply elem_of_cons in Hq as [->|Hq]; [reflexivity|].
    apply elem_of_cons in Hq as [->|Hq]; [reflexivity|].
    by apply elem_of_nil in Hq.
Qed.

Lemma knnSearch_nearest_end_to_end_witness :
  symmetric manhattan /\ triangle manhattan
  /\ exists t' pts ixs ds,
       createVPTree leaf_init nth_element (injectDistanceFunc tree0 manhattan manhattan) corners
       = Ok (t', pts)
       /\ knnSearch 11 t' [centre; inside] 1 [] [] = Ok (ixs, ds)
       /\ exists ix p,
            ixs !! 1%nat = Some ix /\ ds !! 1%nat = Some (manhattan inside p)
            /\ at_index pts ix = Ok p
            /\ forall x, x ∈ corners -> (manhattan inside p <= manhattan inside x)%Q.
Proof.
  split; [exact manhattan_symmetric|]. split; [exact manhattan_triangle|].
  destruct (knnSearch_nearest_end_to_end leaf_init leaf_init_no_children nth_element
              nth_element_ok tree0 manhattan corners [centre; inside] 1 [] [] 11
              manhattan_symmetric manhattan_triangle)
    as (t' & pts & ixs & ds & Hc & _ & Hk & _ & _ & Hcells).
  - vm_compute. discriminate.
  - exact corners_near.
  - vm_compute. lia.
  - exists t', pts, ixs, ds. split; [exact Hc|]. split; [exact Hk|].
    destruct (Hcells 1%nat inside eq_refl) as (ix & p & Hi & Hd & Hp & _ & Hmin).
    exists ix, p. split; [exact Hi|]. split; [exact Hd|]. split; [exact Hp | exact Hmin].
Defined.

Lemma corners_stored (q : Point) : q ∈ [centre; corner] -> q ∈ corners.
Proof.
  intros Hq. apply list_elem_of_lookup.
  apply elem_of_cons in Hq as [->|Hq]; [by exists 4%nat|].
  apply elem_of_cons in Hq as [->|Hq]; [by exists 3%nat|].
  by apply elem_of_nil in Hq.
Qed.

Lemma knnSearch_finds_stored_points_witness :
  symmetric manhattan /\ triangle manhattan /\ (forall x, manhattan x x == 0)%Q
  /\ exists t' pts ixs ds,
       createVPTree leaf_init nth_element (injectDistanceFunc tree0 manhattan manhattan) corners
       = Ok (t', pts)
       /\ knnSearch 11 t' [centre; corner] 1 [] [] = Ok (ixs, ds)
       /\ exists ix p dd,
            ixs !! 1%nat = Some ix /\ ds !! 1%nat = Some dd /\ (dd == 0)%Q
            /\ at_index pts ix = Ok p /\ (manhattan corner p == 0)%Q.
Proof.
  split; [exact manhattan_symmetric|]. split; [exact manhattan_triangle|].
  split; [exact manhattan_self|].
  destruct (knnSearch_finds_stored_points leaf_init leaf_init_no_children nth_element
              nth_element_ok tree0 manhattan corners [centre; corner] 1 [] [] 11
              manhattan_symmetric manhattan_triangle manhattan_self)
    as (t' & pts & ixs & ds & Hc & Hk & Hcells).
  - vm_compute. discriminate.
  - exact corners_stored.
  - vm_compute. lia.
  - exists t', pts, ixs, ds. split; [exact Hc|]. split; [exact Hk|].
    destruct (Hcells 1%nat corner eq_refl) as (ix & p & dd & Hi & Hd & Hz & Hp & _ & Hz').
    exists ix, p, dd. split; [exact Hi|]. split; [exact Hd|]. split; [exact Hz|].
    split; [exact Hp | exact Hz'].
Defined.

Lemma knnSearch_overwrites_outputs_witness :
  tree_valid (chain_tree 2) = true
  /\ knnSearch 200 (chain_tree 2) [near; far] 1 [7] [3 # 2]%Q
     = knnSearch 200 (chain_tree 2) [near; far] 5 [] [].
Proof.
  split; [reflexivity|].
  apply (knnSearch_overwrites_outputs (chain_tree 2) 200 [near; far] 1 5 [7] []
           [3 # 2]%Q []).
  reflexivity.
Defined.

Lemma knnSearch_on_empty_tree_witness :
  [centre] <> [] /\ (1 <= 1)%nat
  /\ exists t',
       createVPTree leaf_init nth_element tree0 [] = Ok (t', [])
       /\ tree_valid t' = true
       /\ knnSearch 1 t' [centre] 1 [] [] = Err OutOfRange.
Proof.
  split; [discriminate|]. split; [lia|].
  destruct (knnSearch_on_empty_tree leaf_init nth_element tree0 [centre] 1 [] [] 1)
    as (t' & Hc & Hv & _ & _ & _ & Hk).
  - discriminate.
  - lia.
  - exists t'. split; [exact Hc|]. split; [exact Hv | exact Hk].
Defined.



Lemma KNNSearch_loops_on_cyclic_table_witness :
  at_index cycle 0 = Ok (mkNode (-1 # 1) 0 (-1) 0)
  /\ at_index [origin] 0 = Ok origin
  /\ (0 <= manhattan far origin)%Q
  /\ KNNSearch 1000 cycle [origin] far manhattan = Err OutOfFuel.
Proof.
  split; [reflexivity|]. split; [reflexivity|]. split; [discriminate|].
  apply (KNNSearch_loops_on_cyclic_table cycle [origin] far manhattan
           (mkNode (-1 # 1) 0 (-1) 0) origin 1000).
  - reflexivity.
  - reflexivity.
  - reflexivity.
  - reflexivity.
  - reflexivity.
  - discriminate.
Defined.

Lemma knnSearch_reads_witness :
  Forall2 same_links (gpu_nodes (chain_tree 1)) (gpu_nodes renumbered)
  /\ knnSearch 200 (chain_tree 1) [near; far] 1 [] []
     = knnSearch 200 renumbered [near; far] 1 [] [].
Proof.
  assert (H : Forall2 same_links (gpu_nodes (chain_tree 1)) (gpu_nodes renumbered)).
  { repeat constructor. }
  split; [exact H|].
  apply (knnSearch_reads (chain_tree 1) renumbered 200 [near; far] 1 [] [] H).
  - reflexivity.
  - reflexivity.
  - reflexivity.
Defined.

End ExtraWitnesses.
